(** * Device selection with CEL: the DRA [cel] package

    A shallow embedding of
    [vendor/k8s.io/dynamic-resource-allocation/cel/compile.go]:
    qualified-name parsing, attribute value resolution, the default-value
    map wrapper, the compiler front end [CompileCELExpression] and the
    evaluator [DeviceMatches].

    The expression language itself (cel-go), the semantic-version parser and
    the Kubernetes environment set are libraries the package calls into;
    they are taken as an interface, [CelRuntime], and every result below
    holds for each implementation of it. *)

From Stdlib Require Import ZArith NArith Lia Ascii String.
From stdpp Require Import base option list gmap strings fin_maps.

Set Warnings "-register-all".
Local Open Scope string_scope.
Local Open Scope Z_scope.

(** ** Go runtime conventions *)

(** A call either returns or panics (a failed type assertion, an index out
    of range, a method call through a nil pointer or a nil interface). *)
Inductive outcome (A : Type) : Type :=
| Returns (a : A)
| Panics (reason : string).
Arguments Returns {A} a.
Arguments Panics {A} reason.

#[export] Instance outcome_ret : MRet outcome := fun A a => Returns a.
#[export] Instance outcome_bind : MBind outcome := fun A B k o =>
  match o with
  | Returns a => k a
  | Panics r => Panics r
  end.

(** Go's [error] values as this package makes them: [errors.New] and
    [fmt.Errorf] with one [%w] operand, which keeps the wrapped error next
    to the formatted message. *)
Inductive error : Type :=
| errors_New (text : string)
| fmt_Errorf_w (msg : string) (wrapped : error).

(** [err.Error()]. *)
Definition Error_string (e : error) : string :=
  match e with
  | errors_New text => text
  | fmt_Errorf_w msg _ => msg
  end.

(** [errors.Unwrap]. *)
Definition Unwrap (e : error) : option error :=
  match e with
  | errors_New _ => None
  | fmt_Errorf_w _ w => Some w
  end.

(** ** Strings *)

Definition len (s : string) : Z := Z.of_nat (String.length s).

Fixpoint index_from (s substr : string) (i : Z) : Z :=
  if String.prefix substr s then i
  else match s with
       | EmptyString => -1
       | String _ s' => index_from s' substr (i + 1)
       end.

(** [strings.Index(s, substr)]: the byte index of the first instance of
    [substr] in [s], or [-1]. *)
Definition strings_Index (s substr : string) : Z := index_from s substr 0.

(** The slice expression [s[lo:hi]], which panics unless
    [0 <= lo <= hi <= len(s)]. *)
Definition slice (s : string) (lo hi : Z) : outcome string :=
  if (0 <=? lo) && (lo <=? hi) && (hi <=? len s)
  then Returns (String.substring (Z.to_nat lo) (Z.to_nat (hi - lo)) s)
  else Panics "slice bounds out of range".

(** ** Qualified names *)

(** [resourceapi.QualifiedName] is a string type. *)
Abbreviation QualifiedName := string (only parsing).

(** [parseQualifiedName] splits into domain and identifier, using the
    default domain if the name does not contain one. *)
Definition parseQualifiedName (name : QualifiedName) (defaultDomain : string)
  : outcome (string * string) :=
  let sep := strings_Index name "/" in
  if sep =? -1 then Returns (defaultDomain, name)
  else
    domain ← slice name 0 sep;
    id ← slice name (sep + 1) (len name);
    Returns (domain, id).

(** ** The libraries behind the package *)

(** The carriers of the values that cross the package boundary. A [ref_Val]
    is a non-nil CEL value; where the code can hold a nil pointer or a nil
    interface the field or result is an [option]. *)
Class CelTypes : Type := {
  semver_Version : Type;
  resource_Quantity : Type;
  ref_Val : Type;
  cel_Type : Type;
  cel_Type_eq_dec :: EqDecision cel_Type;
  cel_Env : Type;
  cel_Ast : Type;
  cel_Issues : Type;
  cel_Program : Type;
  cel_EvalDetails : Type;
  types_Adapter : Type;
  environment_EnvSet : Type;
  environment_Type : Type;
  context_Context : Type
}.

(** What a library call that ends in [error] hands back: the value when the
    error is nil, the error otherwise. *)
Inductive go_result (A : Type) : Type :=
| Ok (a : A)
| Err (e : error).
Arguments Ok {A} a.
Arguments Err {A} e.

(** [traits.Mapper], through the one method this package overrides. [Find]
    returns a value (nil when there is none) and whether the key was found. *)
Record traits_Mapper `{CelTypes} : Type := {
  Mapper_Find : ref_Val -> option ref_Val * bool
}.

(** [apiservercel.Semver] and [apiservercel.Quantity] wrap the library
    values. *)
Record apiservercel_Semver `{CelTypes} : Type := { Version : semver_Version }.
Record apiservercel_Quantity `{CelTypes} : Type := { Quantity : resource_Quantity }.

(** The dynamic values this package stores in an [any]; [any_nil] is the
    nil interface value, [any_other] a value of a Go type the package does
    not build itself, known by the name of its type. *)
Inductive any `{CelTypes} : Type :=
| any_nil
| any_int64 (i : Z)
| any_bool (b : bool)
| any_string (s : string)
| any_Semver (v : apiservercel_Semver)
| any_map_any (m : gmap string any)
| any_map_Quantity (m : gmap string apiservercel_Quantity)
| any_Mapper (m : traits_Mapper)
| any_other (goType : string).

(** The [%T] verb of [fmt]. *)
Definition fmt_T `{CelTypes} (v : any) : string :=
  match v with
  | any_nil => "<nil>"
  | any_int64 _ => "int64"
  | any_bool _ => "bool"
  | any_string _ => "string"
  | any_Semver _ => "cel.Semver"
  | any_map_any _ => "map[string]interface {}"
  | any_map_Quantity _ => "map[string]cel.Quantity"
  | any_Mapper _ => "cel.mapper"
  | any_other goType => goType
  end.

(** [reflect.Type], by the name of the type. *)
Definition reflect_Type : Type := string.
Definition reflect_TypeOf `{CelTypes} (v : any) : reflect_Type := fmt_T v.

(** [cel.ProgramOption], as far as this package builds them. *)
Inductive cel_ProgramOption : Type :=
| cel_CostLimit (costLimit : N)
| cel_InterruptCheckFrequency (checkFrequency : N).

(** [checker.CostEstimate] and the zero [library.CostEstimator]. *)
Record checker_CostEstimate : Type := { Min : N; Max : N }.
Inductive library_CostEstimator : Type := CostEstimator_zero.

(** The calls into cel-go, semver and the apiserver packages, and the
    constants read from them. *)
Class CelRuntime `{CelTypes} : Type := {
  semver_Parse : string -> go_result semver_Version;
  cel_BoolType : cel_Type;
  cel_AnyType : cel_Type;
  Type_String : cel_Type -> string;
  environment_StoredExpressions : environment_Type;
  resourceapi_CELSelectorExpressionMaxCost : N;
  celconfig_CheckFrequency : N;
  EnvSet_Env : environment_EnvSet -> environment_Type -> go_result cel_Env;
  Env_Compile : cel_Env -> string -> cel_Ast + cel_Issues;
  Issues_String : cel_Issues -> string;
  Ast_OutputType : cel_Ast -> cel_Type;
  cel_AstToCheckedExpr : cel_Ast -> go_result unit;
  Env_Program : cel_Env -> cel_Ast -> list cel_ProgramOption -> go_result cel_Program;
  Env_CELTypeAdapter : cel_Env -> types_Adapter;
  Env_EstimateCost : cel_Env -> cel_Ast -> library_CostEstimator -> go_result checker_CostEstimate;
  Adapter_NativeToValue : types_Adapter -> any -> ref_Val;
  Val_String : ref_Val -> option string;
  Val_TypeName : ref_Val -> string;
  Val_ConvertToNative : ref_Val -> reflect_Type -> go_result any;
  Program_ContextEval :
    cel_Program -> context_Context -> gmap string any ->
    go_result ref_Val * option cel_EvalDetails
}.

(** ** The package's own types *)

Definition deviceVar : string := "device".
Definition driverVar : string := "driver".
Definition attributesVar : string := "attributes".
Definition capacityVar : string := "capacity".

(** Modelled from the spec: [apiservercel.ErrorType], whose declaration is
    not among the sources; the error payload's kind is one of Invalid and
    Internal. *)
Inductive apiservercel_ErrorType : Type :=
| ErrorTypeInvalid
| ErrorTypeInternal.

(** [apiservercel.Error], with the two fields the package sets. *)
Record apiservercel_Error : Type := {
  Type_ : apiservercel_ErrorType;
  Detail : string
}.

(** [resourceapi.DeviceAttribute]: four pointer fields, nil when not set. *)
Record DeviceAttribute : Type := {
  IntValue : option Z;
  BoolValue : option bool;
  StringValue : option string;
  VersionValue : option string
}.

Section Package.
Context {TY : CelTypes} {RT : CelRuntime}.

(** [resourceapi.DeviceCapacity]. *)
Record DeviceCapacity : Type := { Value : resource_Quantity }.

(** [CompilationResult] represents a compiled expression. *)
Record CompilationResult : Type := {
  Program : option cel_Program;
  Error : option apiservercel_Error;
  Expression : string;
  OutputType : option cel_Type;
  Environment : option cel_Env;
  MaxCost : N;
  emptyMapVal : option ref_Val
}.

(** [Device] defines the input values for a CEL selector expression. *)
Record Device : Type := {
  Driver : string;
  Attributes : gmap string DeviceAttribute;
  Capacity : gmap string DeviceCapacity
}.

Record compiler : Type := { envset : environment_EnvSet }.

Record Options : Type := {
  EnvType : option environment_Type;
  CostLimit : option N
}.

(** [ptr.Deref(p, def)]. *)
Definition ptr_Deref {A : Type} (p : option A) (def : A) : A :=
  match p with
  | Some a => a
  | None => def
  end.

(** A method call through a pointer or an interface that may be nil. *)
Definition receiver {A : Type} (p : option A) : outcome A :=
  match p with
  | Some a => Returns a
  | None => Panics "invalid memory address or nil pointer dereference"
  end.

(** ** Compilation *)

Definition CompileCELExpression (c : compiler) (expression : string) (options : Options)
  : CompilationResult :=
  let resultError (errorString : string) (errType : apiservercel_ErrorType) :=
    {| Program := None;
       Error := Some {| Type_ := errType; Detail := errorString |};
       Expression := expression;
       OutputType := None;
       Environment := None;
       MaxCost := 0%N;
       emptyMapVal := None |} in
  match EnvSet_Env (envset c) (ptr_Deref (EnvType options) environment_StoredExpressions) with
  | Err err =>
      resultError ("unexpected error loading CEL environment: " +:+ Error_string err)
                  ErrorTypeInternal
  | Ok env =>
  let estimator := CostEstimator_zero in
  match Env_Compile env expression with
  | inr issues =>
      resultError ("compilation failed: " +:+ Issues_String issues) ErrorTypeInvalid
  | inl ast =>
  let expectedReturnType := cel_BoolType in
  if bool_decide (Ast_OutputType ast <> expectedReturnType)
     && bool_decide (Ast_OutputType ast <> cel_AnyType)
  then
    resultError ("must evaluate to " +:+ Type_String expectedReturnType
                 +:+ " or the unknown type, not " +:+ Type_String (Ast_OutputType ast))
                ErrorTypeInvalid
  else
  match cel_AstToCheckedExpr ast with
  | Err err =>
      resultError ("unexpected compilation error: " +:+ Error_string err) ErrorTypeInternal
  | Ok _ =>
  match Env_Program env ast
          [cel_CostLimit (ptr_Deref (CostLimit options) resourceapi_CELSelectorExpressionMaxCost);
           cel_InterruptCheckFrequency celconfig_CheckFrequency] with
  | Err err =>
      resultError ("program instantiation failed: " +:+ Error_string err) ErrorTypeInternal
  | Ok prog =>
  let emptyMap := Adapter_NativeToValue (Env_CELTypeAdapter env) (any_map_any ∅) in
  match Env_EstimateCost env ast estimator with
  | Err err =>
      {| Program := Some prog;
         Error := Some {| Type_ := ErrorTypeInternal;
                          Detail := "cost estimation failed: " +:+ Error_string err |};
         Expression := expression;
         OutputType := Some (Ast_OutputType ast);
         Environment := Some env;
         MaxCost := 0%N;
         emptyMapVal := Some emptyMap |}
  | Ok costEst =>
      {| Program := Some prog;
         Error := None;
         Expression := expression;
         OutputType := Some (Ast_OutputType ast);
         Environment := Some env;
         MaxCost := Max costEst;
         emptyMapVal := Some emptyMap |}
  end end end end end.

(** The result of a failed compilation: the error and the expression, every
    other field at its zero value. *)
Definition error_result (expression detail : string) (kind : apiservercel_ErrorType)
  : CompilationResult :=
  {| Program := None;
     Error := Some {| Type_ := kind; Detail := detail |};
     Expression := expression;
     OutputType := None;
     Environment := None;
     MaxCost := 0%N;
     emptyMapVal := None |}.

(** ** Attribute values *)

(** [getAttributeValue] returns the native representation of the one value
    that should be stored in the attribute, otherwise an error. *)
Definition getAttributeValue (attr : DeviceAttribute) : any * option error :=
  match IntValue attr with
  | Some i => (any_int64 i, None)
  | None =>
  match BoolValue attr with
  | Some b => (any_bool b, None)
  | None =>
  match StringValue attr with
  | Some s => (any_string s, None)
  | None =>
  match VersionValue attr with
  | Some text =>
      match semver_Parse text with
      | Err err =>
          (any_nil, Some (fmt_Errorf_w ("parse semantic version: " +:+ Error_string err) err))
      | Ok v => (any_Semver {| Version := v |}, None)
      end
  | None => (any_nil, Some (errors_New "unsupported attribute value"))
  end end end end.

(** ** The map with a default value *)

(** Modelled from the spec: cel-go's [types.NewStringInterfaceMap], which is
    not among the sources: the domain-keyed mapping that the wrapper wraps.
    Looking up a key that is present finds the adapted per-domain value,
    any other key (absent, or not a string) is not found. *)
Definition types_NewStringInterfaceMap (adapter : types_Adapter) (value : gmap string any)
  : traits_Mapper :=
  {| Mapper_Find := fun key =>
       match Val_String key with
       | Some k =>
           match value !! k with
           | Some keyVal => (Some (Adapter_NativeToValue adapter keyVal), true)
           | None => (None, false)
           end
       | None => (None, false)
       end |}.

(** [mapper] embeds a [traits.Mapper] and carries the default value. *)
Record mapper : Type := {
  Mapper : traits_Mapper;
  defaultValue : option ref_Val
}.

(** [Find] wraps the mapper's [Find] so that a default empty map is returned
    when the lookup did not find the entry. *)
Definition Find (m : mapper) (key : ref_Val) : option ref_Val * bool :=
  let '(value, found) := Mapper_Find (Mapper m) key in
  if found then (value, true)
  else (defaultValue m, true).

(** A [mapper] used as a [traits.Mapper]: its own [Find] is the one called. *)
Definition mapper_Mapper (m : mapper) : traits_Mapper :=
  {| Mapper_Find := Find m |}.

(** [newStringInterfaceMapWithDefault] is like [types.NewStringInterfaceMap],
    except that looking up an unknown key returns a default value. *)
Definition newStringInterfaceMapWithDefault
    (adapter : types_Adapter) (value : gmap string any) (defaultValue : option ref_Val)
  : mapper :=
  {| Mapper := types_NewStringInterfaceMap adapter value;
     defaultValue := defaultValue |}.

(** ** Evaluation *)

(** The index expression [m[k]] on a [map[string]any]: the nil interface
    when the key is absent. *)
Definition map_index (m : gmap string any) (k : string) : any :=
  match m !! k with
  | Some v => v
  | None => any_nil
  end.

(** The comparison [v == nil] of an interface value. *)
Definition is_nil (v : any) : bool :=
  match v with
  | any_nil => true
  | _ => false
  end.

(** The type assertions [v.(map[string]any)] and
    [v.(map[string]apiservercel.Quantity)]. *)
Definition assert_map_any (v : any) : outcome (gmap string any) :=
  match v with
  | any_map_any m => Returns m
  | _ => Panics ("interface conversion: interface {} is " +:+ fmt_T v
                 +:+ ", not map[string]interface {}")
  end.

Definition assert_map_Quantity (v : any) : outcome (gmap string apiservercel_Quantity) :=
  match v with
  | any_map_Quantity m => Returns m
  | _ => Panics ("interface conversion: interface {} is " +:+ fmt_T v
                 +:+ ", not map[string]cel.Quantity")
  end.

(** What [DeviceMatches] returns. *)
Definition DeviceMatches_result : Type := bool * option cel_EvalDetails * option error.

(** A [range] over a Go map visits every entry once, in an order that is not
    specified: any list of the entries may be the order of a run. *)
Definition ranges {A : Type} (order : list (string * A)) (m : gmap string A) : Prop :=
  order ≡ₚ map_to_list m.

(** The first loop of [DeviceMatches], over the attributes in the order
    [entries]; [inl] is a [return] from inside the loop. The inner map is a
    reference held only by the outer one, so the assignment through it is an
    update of the outer entry. *)
Fixpoint DeviceMatches_attributes (driver : string)
    (entries : list (QualifiedName * DeviceAttribute)) (attributes : gmap string any)
  : outcome (DeviceMatches_result + gmap string any) :=
  match entries with
  | [] => Returns (inr attributes)
  | (name, attr) :: entries =>
      let '(value, err) := getAttributeValue attr in
      match err with
      | Some err =>
          Returns (inl (false, None,
                        Some (fmt_Errorf_w ("attribute " +:+ name +:+ ": " +:+ Error_string err)
                                           err)))
      | None =>
          '(domain, id) ← parseQualifiedName name driver;
          let attributes :=
            if is_nil (map_index attributes domain)
            then <[domain := any_map_any ∅]> attributes
            else attributes in
          inner ← assert_map_any (map_index attributes domain);
          DeviceMatches_attributes driver entries
            (<[domain := any_map_any (<[id := value]> inner)]> attributes)
      end
  end.

(** The second loop, over the capacities; each iteration has its own [cap]. *)
Fixpoint DeviceMatches_capacity (driver : string)
    (entries : list (QualifiedName * DeviceCapacity)) (capacity : gmap string any)
  : outcome (gmap string any) :=
  match entries with
  | [] => Returns capacity
  | (name, cap) :: entries =>
      '(domain, id) ← parseQualifiedName name driver;
      let capacity :=
        if is_nil (map_index capacity domain)
        then <[domain := any_map_Quantity ∅]> capacity
        else capacity in
      inner ← assert_map_Quantity (map_index capacity domain);
      DeviceMatches_capacity driver entries
        (<[domain := any_map_Quantity (<[id := {| Quantity := Value cap |}]> inner)]> capacity)
  end.

Definition boolType : reflect_Type := reflect_TypeOf (any_bool true).

(** The variable bindings handed to the program. *)
Definition DeviceMatches_variables (c : CompilationResult) (env : cel_Env) (input : Device)
    (attributes capacity : gmap string any) : gmap string any :=
  {[ deviceVar :=
       any_map_any
         (<[driverVar := any_string (Driver input)]>
          (<[attributesVar :=
               any_Mapper (mapper_Mapper
                 (newStringInterfaceMapWithDefault (Env_CELTypeAdapter env) attributes
                    (emptyMapVal c)))]>
           (<[capacityVar :=
                any_Mapper (mapper_Mapper
                  (newStringInterfaceMapWithDefault (Env_CELTypeAdapter env) capacity
                     (emptyMapVal c)))]> ∅))) ]}.

(** The end of [DeviceMatches]: what the call of the program returned is
    turned into the match decision. *)
Definition DeviceMatches_convert
    (evaluated : go_result ref_Val * option cel_EvalDetails)
  : outcome DeviceMatches_result :=
  let '(result, details) := evaluated in
  match result with
  | Err err => Returns (false, details, Some err)
  | Ok result =>
      match Val_ConvertToNative result boolType with
      | Err err =>
          Returns (false, details,
                   Some (fmt_Errorf_w
                           ("CEL result of type " +:+ Val_TypeName result
                            +:+ " could not be converted to bool: " +:+ Error_string err)
                           err))
      | Ok resultAny =>
          match resultAny with
          | any_bool resultBool => Returns (resultBool, details, None)
          | _ =>
              Returns (false, details,
                       Some (errors_New
                               ("CEL native result value should have been a bool, got instead: "
                                +:+ fmt_T resultAny)))
          end
      end
  end.

(** [DeviceMatches], run with the two maps ranged over in the orders
    [attributesOrder] and [capacityOrder]. *)
Definition DeviceMatches (c : CompilationResult) (ctx : context_Context) (input : Device)
    (attributesOrder : list (QualifiedName * DeviceAttribute))
    (capacityOrder : list (QualifiedName * DeviceCapacity))
  : outcome DeviceMatches_result :=
  r ← DeviceMatches_attributes (Driver input) attributesOrder ∅;
  match r with
  | inl ret => Returns ret
  | inr attributes =>
      capacity ← DeviceMatches_capacity (Driver input) capacityOrder ∅;
      env ← receiver (Environment c);
      let variables := DeviceMatches_variables c env input attributes capacity in
      prog ← receiver (Program c);
      DeviceMatches_convert (Program_ContextEval prog ctx variables)
  end.

End Package.

(** Whether the byte [c] occurs in [s]; a string with no ['/'] in it. *)
Fixpoint has_byte (c : ascii) (s : string) : bool :=
  match s with
  | EmptyString => false
  | String c' s' => bool_decide (c' = c) || has_byte c s'
  end.

Definition no_slash (s : string) : Prop := has_byte "/" s = false.

(** ** The shape of the normalized maps *)

(** The values [getAttributeValue] produces. *)
Definition is_scalar `{CelTypes} (v : any) : Prop :=
  match v with
  | any_int64 _ | any_bool _ | any_string _ | any_Semver _ => True
  | _ => False
  end.

Definition unwrap_map_any `{CelTypes} (v : any) : option (gmap string any) :=
  match v with
  | any_map_any m => Some m
  | _ => None
  end.

Definition unwrap_map_Quantity `{CelTypes} (v : any)
  : option (gmap string apiservercel_Quantity) :=
  match v with
  | any_map_Quantity m => Some m
  | _ => None
  end.

(** Both loops of [DeviceMatches] fill an outer map whose values are inner
    maps of one Go type, [wrap]ped into an [any]. *)
Section Nested.
Context {TY : CelTypes} {V : Type}.
Variable wrap : gmap string V -> any.
Variable unwrap : any -> option (gmap string V).

(** The inner map under a domain, empty when the domain has none. *)
Definition inner_of (outer : gmap string any) (domain : string) : gmap string V :=
  match outer !! domain with
  | Some v => default ∅ (unwrap v)
  | None => ∅
  end.

(** Get or create the inner map of [domain] and store [x] under [id]. *)
Definition nested_insert (outer : gmap string any) (domain id : string) (x : V)
  : gmap string any :=
  <[domain := wrap (<[id := x]> (inner_of outer domain))]> outer.

(** [id] was inserted under [domain]. *)
Definition has_entry (outer : gmap string any) (domain id : string) : Prop :=
  is_Some (inner_of outer domain !! id).

(** Two levels: every value of the outer map is an inner map, and no inner
    map is empty. *)
Definition two_level (outer : gmap string any) : Prop :=
  forall domain v, outer !! domain = Some v ->
    exists inner, v = wrap inner /\ inner <> ∅.

End Nested.

(** The leaves of the attributes map are scalars, not maps. *)
Definition scalar_leaves `{CelTypes} (outer : gmap string any) : Prop :=
  forall domain id x,
    inner_of unwrap_map_any outer domain !! id = Some x -> is_scalar x.

(** How many of the four value fields of an attribute are set. *)
Definition set_fields (attr : DeviceAttribute) : nat :=
  let set {A : Type} (field : option A) : nat :=
    match field with Some _ => 1%nat | None => 0%nat end in
  (set (IntValue attr) + set (BoolValue attr)
   + set (StringValue attr) + set (VersionValue attr))%nat.

(** ** A small runtime

    One implementation of the interface, small enough to run: its
    expression language has five expressions, a version is any non-empty
    text and a quantity is an integer. It serves to evaluate the package's
    functions on concrete devices. *)
Module Sample.

Inductive sample_Type : Type := TyBool | TyDyn | TyString | TyInt.

#[export] Instance sample_Type_eq_dec : EqDecision sample_Type.
Proof. solve_decision. Defined.

Inductive sample_Val : Type :=
| VBool (b : bool)
| VInt (i : Z)
| VString (s : string)
| VMap (size : nat)
| VUnknown.

#[export] Instance types : CelTypes := {|
  semver_Version := string;
  resource_Quantity := Z;
  ref_Val := sample_Val;
  cel_Type := sample_Type;
  cel_Env := unit;
  cel_Ast := string * sample_Type;
  cel_Issues := string;
  cel_Program := string;
  cel_EvalDetails := N;
  types_Adapter := unit;
  environment_EnvSet := unit;
  environment_Type := unit;
  context_Context := unit
|}.

Definition compile (text : string) : (string * sample_Type) + string :=
  if String.eqb text "true" then inl (text, TyBool)
  else if String.eqb text "dyn(1)" then inl (text, TyDyn)
  else if String.eqb text "device.driver" then inl (text, TyString)
  else if String.eqb text "1 + 1" then inl (text, TyInt)
  else if String.eqb text "cel.bind(x, true, x)" then inl (text, TyBool)
  else inr ("ERROR: <input>:1:1: undeclared reference to '" +:+ text +:+ "'").

Definition type_string (t : sample_Type) : string :=
  match t with
  | TyBool => "bool"
  | TyDyn => "dyn"
  | TyString => "string"
  | TyInt => "int"
  end.

Definition native_to_value (v : any) : sample_Val :=
  match v with
  | any_bool b => VBool b
  | any_int64 i => VInt i
  | any_string s => VString s
  | any_map_any m => VMap (size m)
  | any_map_Quantity m => VMap (size m)
  | _ => VUnknown
  end.

Definition type_name (v : sample_Val) : string :=
  match v with
  | VBool _ => "bool"
  | VInt _ => "int"
  | VString _ => "string"
  | VMap _ => "map"
  | VUnknown => "unknown"
  end.

Definition eval (prog : string) : go_result sample_Val * option N :=
  if String.eqb prog "true" || String.eqb prog "cel.bind(x, true, x)"
  then (Ok (VBool true), Some 1%N)
  else if String.eqb prog "dyn(1)" then (Ok (VInt 1), Some 1%N)
  else (Err (errors_New "no such overload"), None).

#[export] Instance runtime : CelRuntime := {|
  semver_Parse := fun text =>
    if String.eqb text "" then Err (errors_New "Version string empty") else Ok text;
  cel_BoolType := TyBool;
  cel_AnyType := TyDyn;
  Type_String := type_string;
  environment_StoredExpressions := tt;
  resourceapi_CELSelectorExpressionMaxCost := 1000000%N;
  celconfig_CheckFrequency := 100%N;
  EnvSet_Env := fun _ _ => Ok tt;
  Env_Compile := fun _ text => compile text;
  Issues_String := fun issues => issues;
  Ast_OutputType := snd;
  cel_AstToCheckedExpr := fun _ => Ok tt;
  Env_Program := fun _ ast _ => Ok (fst ast);
  Env_CELTypeAdapter := fun _ => tt;
  Env_EstimateCost := fun _ ast _ =>
    if String.eqb (fst ast) "cel.bind(x, true, x)"
    then Err (errors_New "no estimate for cel.bind")
    else Ok {| Min := 1%N; Max := 1%N |};
  Adapter_NativeToValue := fun _ v => native_to_value v;
  Val_String := fun v => match v with VString s => Some s | _ => None end;
  Val_TypeName := type_name;
  Val_ConvertToNative := fun v _ =>
    match v with
    | VBool b => Ok (any_bool b)
    | _ => Err (errors_New "type conversion error")
    end;
  Program_ContextEval := fun prog _ _ => eval prog
|}.

Definition sample_compiler : compiler := {| envset := tt |}.
Definition sample_options : Options := {| EnvType := None; CostLimit := None |}.

(** A device with one attribute that holds no value. *)
Definition broken_device : Device :=
  {| Driver := "gpu.example.com";
     Attributes := {[ "model" := {| IntValue := None; BoolValue := None;
                                    StringValue := None; VersionValue := None |} ]};
     Capacity := ∅ |}.

(** A device with a string attribute and a capacity. *)
Definition gpu_device : Device :=
  {| Driver := "gpu.example.com";
     Attributes := {[ "model" := {| IntValue := None; BoolValue := None;
                                    StringValue := Some "A100"; VersionValue := None |} ]};
     Capacity := {[ "memory" := {| Value := 16 |} ]} |}.

End Sample.

(** ** Names that collide *)


(** ** The environment *)

(** [apiservercel.DeclField] as [NewDeclField] fills it (no enum values, no
    default value), over the type of declared types. *)
Record DeclField_of (T : Type) : Type := NewDeclField_of {
  Name : string;
  Type__ : T;
  Required : bool
}.
Arguments NewDeclField_of {T} _ _ _.
Arguments Name {T} _.
Arguments Type__ {T} _.
Arguments Required {T} _.

(** [apiservercel.DeclType], as far as [mustBuildEnv] builds them. *)
Inductive DeclType : Type :=
| StringType
| AnyType
| QuantityDeclType
| NewMapType (key elem : DeclType) (maxElements : Z)
| NewObjectType (name : string) (fields : gmap string (DeclField_of DeclType)).

Abbreviation DeclField := (DeclField_of DeclType) (only parsing).

(** [apiservercel.NewDeclField(name, declType, required, nil, nil)]. *)
Definition NewDeclField (name : string) (declType : DeclType) (required : bool)
  : DeclField :=
  NewDeclField_of name declType required.

(** [environment.VersionedOptions], with the fields [mustBuildEnv] sets. *)
Record VersionedOptions (V O : Type) : Type := {
  IntroducedVersion : V;
  EnvOptions : list O;
  DeclTypes : list DeclType
}.
Arguments IntroducedVersion {V O} _.
Arguments EnvOptions {V O} _.
Arguments DeclTypes {V O} _.

(** The calls [mustBuildEnv] makes into the apiserver's environment package,
    cel-go and its extensions. [MustBaseEnvSet] panics when it fails. *)
Class EnvRuntime `{CelTypes} : Type := {
  version_Version : Type;
  cel_EnvOption : Type;
  version_MajorMinor : N -> N -> version_Version;
  environment_DefaultCompatibilityVersion : version_Version;
  environment_MustBaseEnvSet : version_Version -> bool -> outcome environment_EnvSet;
  DeclType_CelType : DeclType -> cel_Type;
  cel_Variable : string -> cel_Type -> cel_EnvOption;
  environment_UnversionedLib_SemverLib : cel_EnvOption;
  ext_Bindings_Version : N -> cel_EnvOption;
  EnvSet_Extend :
    environment_EnvSet -> list (VersionedOptions version_Version cel_EnvOption) ->
    go_result environment_EnvSet;
  resourceapi_ResourceSliceMaxAttributesAndCapacitiesPerDevice : Z
}.

Section Environment.
Context {TY : CelTypes} {ER : EnvRuntime}.

(** The local [field] and [fields] of [mustBuildEnv]: [fields] indexes the
    declared fields by their names. *)
Definition mustBuildEnv_field (name : string) (declType : DeclType) (required : bool)
  : DeclField :=
  NewDeclField name declType required.

Definition mustBuildEnv_fields (fields : list DeclField) : gmap string DeclField :=
  foldl (fun result f => <[Name f := f]> result) ∅ fields.

(** The [deviceType] of [mustBuildEnv]. *)
Definition mustBuildEnv_deviceType : DeclType :=
  let maxEntries := resourceapi_ResourceSliceMaxAttributesAndCapacitiesPerDevice in
  NewObjectType "kubernetes.DRADevice" (mustBuildEnv_fields [
    mustBuildEnv_field driverVar StringType true;
    mustBuildEnv_field attributesVar
      (NewMapType StringType (NewMapType StringType AnyType maxEntries) maxEntries) true;
    mustBuildEnv_field capacityVar
      (NewMapType StringType (NewMapType StringType QuantityDeclType maxEntries) maxEntries)
      true
  ]).

(** The [versioned] options of [mustBuildEnv]. *)
Definition mustBuildEnv_versioned : list (VersionedOptions version_Version cel_EnvOption) :=
  let deviceType := mustBuildEnv_deviceType in
  [ {| IntroducedVersion := version_MajorMinor 1 31;
       EnvOptions := [ cel_Variable deviceVar (DeclType_CelType deviceType);
                       environment_UnversionedLib_SemverLib;
                       ext_Bindings_Version 0 ];
       DeclTypes := [ deviceType ] |} ].

Definition mustBuildEnv : outcome environment_EnvSet :=
  envset ← environment_MustBaseEnvSet environment_DefaultCompatibilityVersion true;
  match EnvSet_Extend envset mustBuildEnv_versioned with
  | Err err =>
      Panics ("internal error building CEL environment: " +:+ Error_string err)
  | Ok envset => Returns envset
  end.

Definition newCompiler {RT : CelRuntime} : outcome compiler :=
  envset ← mustBuildEnv;
  Returns {| envset := envset |}.

(** The package variables [lazyCompilerInit] (a [sync.Once], by its done
    flag) and [lazyCompiler]. *)
Record package_vars {RT : CelRuntime} : Type := {
  lazyCompilerInit : bool;
  lazyCompiler : option compiler
}.

(** [sync.Once.Do(f)] on one goroutine: [f] runs only when the flag is not
    set, and the flag is set when [f] returns and when it panics. Here [f]
    is the function literal of [GetCompiler], which stores [newCompiler()]
    in [lazyCompiler]. *)
Definition lazyCompilerInit_Do {RT : CelRuntime} (vars : package_vars)
  : outcome unit * package_vars :=
  if lazyCompilerInit vars then (Returns tt, vars)
  else
    match newCompiler with
    | Returns c => (Returns tt, {| lazyCompilerInit := true; lazyCompiler := Some c |})
    | Panics reason =>
        (Panics reason, {| lazyCompilerInit := true; lazyCompiler := lazyCompiler vars |})
    end.

(** [GetCompiler]: what the call returns, and the package variables after
    it. *)
Definition GetCompiler {RT : CelRuntime} (vars : package_vars)
  : outcome (option compiler) * package_vars :=
  let '(done, vars) := lazyCompilerInit_Do vars in
  (_ ← done; Returns (lazyCompiler vars), vars).

(** The package variables when the program starts. *)
Definition package_init {RT : CelRuntime} : package_vars :=
  {| lazyCompilerInit := false; lazyCompiler := None |}.

End Environment.

(** The declared fields of an object type. *)
Definition DeclType_fields (t : DeclType) : gmap string DeclField :=
  match t with
  | NewObjectType _ fields => fields
  | _ => ∅
  end.

(** The map bound to [device] in the variables of [DeviceMatches]. *)
Definition device_binding `{CelTypes} (variables : gmap string any) : gmap string any :=
  match variables !! deviceVar with
  | Some (any_map_any device) => device
  | _ => ∅
  end.

(** A runtime whose environment builds, and one whose [Extend] fails. *)
Module SampleEnv.

#[local] Existing Instances Sample.types Sample.runtime.

#[export] Instance env_runtime : EnvRuntime := {|
  version_Version := N * N;
  cel_EnvOption := string;
  version_MajorMinor := fun major minor => (major, minor);
  environment_DefaultCompatibilityVersion := (1%N, 32%N);
  environment_MustBaseEnvSet := fun _ _ => Returns tt;
  DeclType_CelType := fun _ => Sample.TyDyn;
  cel_Variable := fun name _ => name;
  environment_UnversionedLib_SemverLib := "semver";
  ext_Bindings_Version := fun _ => "cel.bind";
  EnvSet_Extend := fun envset _ => Ok envset;
  resourceapi_ResourceSliceMaxAttributesAndCapacitiesPerDevice := 32
|}.

Definition failing_env_runtime : EnvRuntime := {|
  version_Version := N * N;
  cel_EnvOption := string;
  version_MajorMinor := fun major minor => (major, minor);
  environment_DefaultCompatibilityVersion := (1%N, 32%N);
  environment_MustBaseEnvSet := fun _ _ => Returns tt;
  DeclType_CelType := fun _ => Sample.TyDyn;
  cel_Variable := fun name _ => name;
  environment_UnversionedLib_SemverLib := "semver";
  ext_Bindings_Version := fun _ => "cel.bind";
  EnvSet_Extend := fun _ _ => Err (errors_New "duplicate declaration");
  resourceapi_ResourceSliceMaxAttributesAndCapacitiesPerDevice := 32
|}.

(** A device with two names for one (domain, identifier) pair. *)
Definition colliding_device : Device :=
  {| Driver := "gpu.example.com";
     Attributes :=
       <[ "model" := {| IntValue := None; BoolValue := None;
                        StringValue := Some "A100"; VersionValue := None |} ]>
       {[ "gpu.example.com/model" :=
            {| IntValue := None; BoolValue := None;
               StringValue := Some "H100"; VersionValue := None |} ]};
     Capacity := ∅ |}.

End SampleEnv.

(** ** Results of a compilation *)

Section Results.
Context {TY : CelTypes} {RT : CelRuntime}.

(** The result when every step succeeds. *)
Definition success_result (expression : string) (env : cel_Env) (ast : cel_Ast)
    (prog : cel_Program) (costEst : checker_CostEstimate) : CompilationResult :=
  {| Program := Some prog;
     Error := None;
     Expression := expression;
     OutputType := Some (Ast_OutputType ast);
     Environment := Some env;
     MaxCost := Max costEst;
     emptyMapVal := Some (Adapter_NativeToValue (Env_CELTypeAdapter env) (any_map_any ∅)) |}.

(** The program options [CompileCELExpression] passes to [env.Program]. *)
Definition program_options (options : Options) : list cel_ProgramOption :=
  [cel_CostLimit (ptr_Deref (CostLimit options) resourceapi_CELSelectorExpressionMaxCost);
   cel_InterruptCheckFrequency celconfig_CheckFrequency].

(** Every step of [CompileCELExpression] up to the program succeeds. *)
Definition compiles (c : compiler) (expression : string) (options : Options)
    (env : cel_Env) (ast : cel_Ast) (prog : cel_Program) : Prop :=
  EnvSet_Env (envset c) (ptr_Deref (EnvType options) environment_StoredExpressions) = Ok env
  /\ Env_Compile env expression = inl ast
  /\ (Ast_OutputType ast = cel_BoolType \/ Ast_OutputType ast = cel_AnyType)
  /\ (exists checked, cel_AstToCheckedExpr ast = Ok checked)
  /\ Env_Program env ast (program_options options) = Ok prog.

End Results.

(** * Properties *)

(** ** Qualified-name parsing *)

Section ParseQualifiedName.

Lemma no_slash_cons c s : no_slash (String c s) <-> c <> "/"%char /\ no_slash s.
Proof.
  unfold no_slash; cbn [has_byte].
  rewrite orb_false_iff, bool_decide_eq_false. tauto.
Qed.

Lemma prefix_slash c s :
  String.prefix "/" (String c s) = bool_decide (c = "/"%char).
Proof.
  change (String.prefix "/" (String c s))
    with (if ascii_dec "/" c then String.prefix "" s else false).
  destruct (ascii_dec "/" c) as [<-|Hne].
  - rewrite bool_decide_eq_true_2 by done. by destruct s.
  - rewrite bool_decide_eq_false_2; [done | congruence].
Qed.

Lemma index_from_no_slash s i : no_slash s -> index_from s "/" i = -1.
Proof.
  revert i; induction s as [|c s IH]; intros i H; [done|].
  apply no_slash_cons in H as [Hc Hs].
  cbn [index_from]. rewrite prefix_slash, bool_decide_eq_false_2 by done.
  by apply IH.
Qed.

Lemma index_from_first pre post i :
  no_slash pre -> index_from (pre +:+ "/" +:+ post) "/" i = i + len pre.
Proof.
  revert i; induction pre as [|c pre IH]; intros i H.
  - change ("" +:+ "/" +:+ post) with (String "/" post).
    cbn [index_from]. rewrite prefix_slash, bool_decide_eq_true_2 by done.
    unfold len; simpl; lia.
  - apply no_slash_cons in H as [Hc Hs].
    change (String c pre +:+ "/" +:+ post) with (String c (pre +:+ "/" +:+ post)).
    cbn [index_from]. rewrite prefix_slash, bool_decide_eq_false_2 by done.
    rewrite IH by done. unfold len; cbn [String.length]. lia.
Qed.

(** Every string either has no ['/'] or splits at its first one. *)
Lemma first_slash (s : string) :
  no_slash s \/ exists pre post, s = pre +:+ "/" +:+ post /\ no_slash pre.
Proof.
  induction s as [|c s IH].
  - by left.
  - destruct (decide (c = "/"%char)) as [->|Hc].
    + right. by exists "", s.
    + destruct IH as [Hs | (pre & post & -> & Hpre)].
      * left. by apply no_slash_cons.
      * right. exists (String c pre), post. split; [done|].
        by apply no_slash_cons.
Qed.

Lemma len_nonneg s : 0 <= len s.
Proof. unfold len; lia. Qed.

Lemma len_app a b : len (a +:+ b) = len a + len b.
Proof.
  unfold len. rewrite <- Nat2Z.inj_add. f_equal.
  induction a as [|c a IH]; simpl; [done | by rewrite IH].
Qed.

Lemma substring_app_l a b :
  String.substring 0 (String.length a) (a +:+ b) = a.
Proof.
  induction a as [|c a IH]; simpl.
  - by destruct b.
  - f_equal. exact IH.
Qed.

Lemma substring_app_r a b :
  String.substring (String.length a) (String.length b) (a +:+ b) = b.
Proof.
  induction a as [|c a IH]; simpl; [|exact IH].
  induction b as [|c b IH]; simpl; [done | f_equal; exact IH].
Qed.

Lemma slice_domain pre post :
  slice (pre +:+ "/" +:+ post) 0 (len pre) = Returns pre.
Proof.
  unfold slice. rewrite len_app.
  pose proof (len_nonneg pre). pose proof (len_nonneg ("/" +:+ post)).
  rewrite !(proj2 (Z.leb_le _ _)) by lia. cbn [andb].
  f_equal. rewrite Z.sub_0_r. unfold len. rewrite Nat2Z.id.
  apply substring_app_l.
Qed.

Lemma slice_identifier pre post :
  slice (pre +:+ "/" +:+ post) (len pre + 1) (len (pre +:+ "/" +:+ post)) = Returns post.
Proof.
  unfold slice.
  pose proof (len_nonneg pre). pose proof (len_nonneg post).
  assert (Hlen : len (pre +:+ "/" +:+ post) = len pre + 1 + len post).
  { rewrite !len_app. unfold len at 2; simpl. lia. }
  rewrite Hlen, !(proj2 (Z.leb_le _ _)) by lia. cbn [andb].
  f_equal.
  replace (Z.to_nat (len pre + 1)) with (String.length (pre +:+ "/"))
    by (apply Nat2Z.inj; fold (len (pre +:+ "/")); rewrite len_app;
        unfold len at 2; simpl; lia).
  replace (Z.to_nat (len pre + 1 + len post - (len pre + 1))) with (String.length post)
    by (unfold len; lia).
  replace (pre +:+ "/" +:+ post) with ((pre +:+ "/") +:+ post).
  - apply substring_app_r.
  - clear. induction pre as [|c pre IH]; [done|].
    change (String c ((pre +:+ "/") +:+ post) = String c (pre +:+ "/" +:+ post)).
    by rewrite IH.
Qed.

Lemma has_slash_app a b : has_byte "/" (a +:+ "/" +:+ b) = true.
Proof.
  induction a as [|c a IH]; [done|].
  change (String c a +:+ "/" +:+ b) with (String c (a +:+ "/" +:+ b)).
  cbn [has_byte]. rewrite IH. apply orb_true_r.
Qed.

(** [no_slash] says what it should: the string is not of the form
    [a ++ "/" ++ b]. *)
Lemma no_slash_iff (s : string) :
  no_slash s <-> forall a b : string, s <> a +:+ "/" +:+ b.
Proof.
  split.
  - intros Hs a b ->. unfold no_slash in Hs. by rewrite has_slash_app in Hs.
  - intros Hs. destruct (first_slash s) as [?|(pre & post & -> & _)]; [done|].
    by destruct (Hs pre post).
Qed.

Lemma parseQualifiedName_bare name defaultDomain :
  no_slash name -> parseQualifiedName name defaultDomain = Returns (defaultDomain, name).
Proof.
  intros H. unfold parseQualifiedName, strings_Index.
  by rewrite index_from_no_slash.
Qed.

Lemma parseQualifiedName_split pre post defaultDomain :
  no_slash pre ->
  parseQualifiedName (pre +:+ "/" +:+ post) defaultDomain = Returns (pre, post).
Proof.
  intros H. unfold parseQualifiedName, strings_Index.
  rewrite index_from_first by done. rewrite Z.add_0_l.
  pose proof (len_nonneg pre).
  destruct (Z.eqb_spec (len pre) (-1)) as [?|_]; [lia|].
  rewrite slice_domain. cbn [mbind outcome_bind].
  by rewrite slice_identifier.
Qed.

Lemma parseQualifiedName_returns name defaultDomain :
  exists domain id, parseQualifiedName name defaultDomain = Returns (domain, id).
Proof.
  destruct (first_slash name) as [H | (pre & post & -> & H)].
  - eexists _, _. by apply parseQualifiedName_bare.
  - eexists _, _. by apply parseQualifiedName_split.
Qed.

(** C4. [parseQualifiedName] never fails: for every name and default domain
    it returns a pair. A name with no ['/'] gives the default domain and the
    whole name; a name that splits at its first ['/'] gives the text before
    it and the text after it. In particular ["vendor/tier"] with default
    ["driverX"] gives [("vendor", "tier")] and ["tier"] gives
    [("driverX", "tier")]. *)
Theorem parseQualifiedName_spec (name defaultDomain : string) :
  (exists domain id, parseQualifiedName name defaultDomain = Returns (domain, id))
  /\ (no_slash name ->
      parseQualifiedName name defaultDomain = Returns (defaultDomain, name))
  /\ (forall pre post, name = pre +:+ "/" +:+ post -> no_slash pre ->
      parseQualifiedName name defaultDomain = Returns (pre, post))
  /\ parseQualifiedName "vendor/tier" "driverX" = Returns ("vendor", "tier")
  /\ parseQualifiedName "tier" "driverX" = Returns ("driverX", "tier").
Proof.
  split; [apply parseQualifiedName_returns|].
  split; [apply parseQualifiedName_bare|].
  split; [|split; reflexivity].
  intros pre post -> H. by apply parseQualifiedName_split.
Qed.

End ParseQualifiedName.

(** A name with a DNS domain in front: the split is at the only ['/']. *)
Lemma parseQualifiedName_spec_witness :
  parseQualifiedName "dra.example.com/model" "gpu.example.com"
  = Returns ("dra.example.com", "model").
Proof.
  apply (proj1 (proj2 (proj2 (parseQualifiedName_spec "dra.example.com/model"
                                "gpu.example.com")))
           "dra.example.com" "model"); reflexivity.
Defined.

(** ** Attribute values *)

Section GetAttributeValue.
Context {TY : CelTypes} {RT : CelRuntime}.

Lemma getAttributeValue_version attr text :
  IntValue attr = None -> BoolValue attr = None -> StringValue attr = None ->
  VersionValue attr = Some text ->
  getAttributeValue attr =
    match semver_Parse text with
    | Err err =>
        (any_nil, Some (fmt_Errorf_w ("parse semantic version: " +:+ Error_string err) err))
    | Ok v => (any_Semver {| Version := v |}, None)
    end.
Proof. intros Hi Hb Hs Hv. unfold getAttributeValue. by rewrite Hi, Hb, Hs, Hv. Qed.

Lemma getAttributeValue_unsupported attr :
  (exists e, (getAttributeValue attr).2 = Some e
             /\ Error_string e = "unsupported attribute value")
  <-> set_fields attr = 0%nat.
Proof.
  unfold getAttributeValue, set_fields.
  destruct (IntValue attr), (BoolValue attr), (StringValue attr),
    (VersionValue attr) as [text|];
    try destruct (semver_Parse text) as [v|err]; cbn;
    (split; [intros (e & He & Hm) | intros H0]);
    try discriminate; try done.
  - injection He as <-. cbn in Hm. discriminate.
  - eexists; split; reflexivity.
Qed.

(** Resolution fails in two ways only: no field is set, or the version
    field is the only one set and its text does not parse. *)
Lemma getAttributeValue_fails_iff attr :
  (getAttributeValue attr).2 <> None
  <-> set_fields attr = 0%nat
      \/ (IntValue attr = None /\ BoolValue attr = None /\ StringValue attr = None
          /\ exists text err, VersionValue attr = Some text
                               /\ semver_Parse text = Err err).
Proof.
  unfold getAttributeValue, set_fields.
  destruct (IntValue attr), (BoolValue attr), (StringValue attr),
    (VersionValue attr) as [text|];
    try destruct (semver_Parse text) as [v|err] eqn:Hparse; cbn;
    (split; [intros Hfail | intros [Hz|(Hi & Hb & Hs & text' & err' & Hv & Hp)]]);
    try done; try (by left).
  - injection Hv as <-. congruence.
  - right. repeat split; try done. by exists text, err.
Qed.

(** C9. [getAttributeValue] resolves an attribute by a fixed precedence:
    the integer field when it is set, else the boolean field, else the
    string field, else the version field (parsed). With more than one field
    set it returns a value and no error, and it returns the error
    "unsupported attribute value" exactly when no field is set. *)
Theorem getAttributeValue_precedence (attr : DeviceAttribute) :
  (forall i, IntValue attr = Some i -> getAttributeValue attr = (any_int64 i, None))
  /\ (forall b, IntValue attr = None -> BoolValue attr = Some b ->
       getAttributeValue attr = (any_bool b, None))
  /\ (forall s, IntValue attr = None -> BoolValue attr = None ->
       StringValue attr = Some s -> getAttributeValue attr = (any_string s, None))
  /\ (forall text, IntValue attr = None -> BoolValue attr = None ->
       StringValue attr = None -> VersionValue attr = Some text ->
       getAttributeValue attr =
         match semver_Parse text with
         | Err err =>
             (any_nil,
              Some (fmt_Errorf_w ("parse semantic version: " +:+ Error_string err) err))
         | Ok v => (any_Semver {| Version := v |}, None)
         end)
  /\ ((2 <= set_fields attr)%nat ->
       (getAttributeValue attr).2 = None /\ (getAttributeValue attr).1 <> any_nil)
  /\ ((exists e, (getAttributeValue attr).2 = Some e
                 /\ Error_string e = "unsupported attribute value")
       <-> set_fields attr = 0%nat).
Proof.
  split; [|split; [|split; [|split; [|split]]]].
  - intros i Hi. unfold getAttributeValue. by rewrite Hi.
  - intros b Hi Hb. unfold getAttributeValue. by rewrite Hi, Hb.
  - intros s Hi Hb Hs. unfold getAttributeValue. by rewrite Hi, Hb, Hs.
  - apply getAttributeValue_version.
  - unfold getAttributeValue, set_fields.
    destruct (IntValue attr), (BoolValue attr), (StringValue attr),
      (VersionValue attr); cbn; intros Hn; (done || lia).
  - apply getAttributeValue_unsupported.
Qed.

End GetAttributeValue.

(** Two fields set, integer and version: the integer wins and the version
    text, here not a version at all, is never parsed. *)
Lemma getAttributeValue_precedence_witness :
  getAttributeValue (RT := Sample.runtime)
    {| IntValue := Some 7; BoolValue := None; StringValue := None;
       VersionValue := Some "" |} = (any_int64 7, None).
Proof.
  apply (proj1 (getAttributeValue_precedence (RT := Sample.runtime)
    {| IntValue := Some 7; BoolValue := None; StringValue := None;
       VersionValue := Some "" |}) 7).
  reflexivity.
Defined.

(** ** The map with a default value *)

Section Mapper.
Context {TY : CelTypes} {RT : CelRuntime}.

Lemma Find_found (m : mapper) (key : ref_Val) : (Find m key).2 = true.
Proof. unfold Find. by destruct (Mapper_Find (Mapper m) key) as [value [|]]. Qed.

Lemma Find_present (m : mapper) (key : ref_Val) value :
  Mapper_Find (Mapper m) key = (value, true) -> Find m key = (value, true).
Proof. unfold Find. by intros ->. Qed.

Lemma Find_absent (m : mapper) (key : ref_Val) value :
  Mapper_Find (Mapper m) key = (value, false) -> Find m key = (defaultValue m, true).
Proof. unfold Find. by intros ->. Qed.

Lemma Find_string_key adapter (value : gmap string any) default key k :
  Val_String key = Some k ->
  Find (newStringInterfaceMapWithDefault adapter value default) key =
    (match value !! k with
     | Some perDomain => Some (Adapter_NativeToValue adapter perDomain)
     | None => default
     end, true).
Proof.
  intros Hk. unfold Find, newStringInterfaceMapWithDefault; cbn.
  rewrite Hk. by destruct (value !! k).
Qed.

(** C2. [Find] on a wrapped mapping reports found for every key. A key the
    wrapped mapping finds gives the value found there, any other key gives
    the default value. For a domain-keyed mapping wrapped by
    [newStringInterfaceMapWithDefault] that is the adapted per-domain
    mapping for a domain that is present and the shared default for one
    that is absent; and when the default is the adapted empty mapping, an
    absent domain gives what the same domain with zero entries would give. *)
Theorem mapper_Find_default (m : mapper) (key : ref_Val) :
  (Find m key).2 = true
  /\ (forall value, Mapper_Find (Mapper m) key = (value, true) ->
      Find m key = (value, true))
  /\ (forall value, Mapper_Find (Mapper m) key = (value, false) ->
      Find m key = (defaultValue m, true))
  /\ (forall adapter (value : gmap string any) default domain,
      m = newStringInterfaceMapWithDefault adapter value default ->
      Val_String key = Some domain ->
      (forall perDomain, value !! domain = Some perDomain ->
         Find m key = (Some (Adapter_NativeToValue adapter perDomain), true))
      /\ (value !! domain = None -> Find m key = (default, true))
      /\ (value !! domain = None ->
          default = Some (Adapter_NativeToValue adapter (any_map_any ∅)) ->
          Find m key =
            Find (newStringInterfaceMapWithDefault adapter
                    (<[domain := any_map_any ∅]> value) default) key)).
Proof.
  split; [apply Find_found|].
  split; [apply Find_present|].
  split; [apply Find_absent|].
  intros adapter value default domain -> Hk.
  split; [|split].
  - intros perDomain Hd. rewrite (Find_string_key _ _ _ _ _ Hk). by rewrite Hd.
  - intros Hd. rewrite (Find_string_key _ _ _ _ _ Hk). by rewrite Hd.
  - intros Hd ->. rewrite !(Find_string_key _ _ _ _ _ Hk).
    by rewrite Hd, lookup_insert_eq.
Qed.

End Mapper.

(** The attributes of [gpu_device] hold one domain; looking up another one
    finds the default. *)
Lemma mapper_Find_default_witness :
  Find (newStringInterfaceMapWithDefault (RT := Sample.runtime) tt
          {[ "gpu.example.com" := any_map_any {[ "model" := any_string "A100" ]} ]}
          (Some (Sample.VMap 0)))
       (Sample.VString "other.example.com")
  = (Some (Sample.VMap 0), true).
Proof.
  apply (proj1 (proj2 (proj2 (mapper_Find_default (RT := Sample.runtime)
           (newStringInterfaceMapWithDefault (RT := Sample.runtime) tt
              {[ "gpu.example.com" := any_map_any {[ "model" := any_string "A100" ]} ]}
              (Some (Sample.VMap 0)))
           (Sample.VString "other.example.com")))) None).
  reflexivity.
Defined.

(** ** Compilation *)

Section Compile.
Context {TY : CelTypes} {RT : CelRuntime}.

Lemma output_type_check_fails ast :
  Ast_OutputType ast <> cel_BoolType -> Ast_OutputType ast <> cel_AnyType ->
  bool_decide (Ast_OutputType ast <> cel_BoolType)
  && bool_decide (Ast_OutputType ast <> cel_AnyType) = true.
Proof. intros Hb Ha. by rewrite !bool_decide_eq_true_2. Qed.

Lemma output_type_check_passes ast :
  Ast_OutputType ast = cel_BoolType \/ Ast_OutputType ast = cel_AnyType ->
  bool_decide (Ast_OutputType ast <> cel_BoolType)
  && bool_decide (Ast_OutputType ast <> cel_AnyType) = false.
Proof.
  intros [Hty|Hty]; apply andb_false_iff; [left|right];
    by apply bool_decide_eq_false_2; intros Hne.
Qed.

(** C1. When the environment loads and the expression parses and
    type-checks: if its static output type is neither boolean nor the
    dynamic type, the result is an Invalid error whose detail names the
    expected and the actual type, with no program; if it is boolean or
    dynamic, the check passes and whatever error the result carries is not
    an Invalid one. *)
Theorem CompileCELExpression_output_type
    (c : compiler) (expression : string) (options : Options) env ast :
  EnvSet_Env (envset c) (ptr_Deref (EnvType options) environment_StoredExpressions) = Ok env ->
  Env_Compile env expression = inl ast ->
  (Ast_OutputType ast <> cel_BoolType -> Ast_OutputType ast <> cel_AnyType ->
   CompileCELExpression c expression options =
     error_result expression
       ("must evaluate to " +:+ Type_String cel_BoolType
        +:+ " or the unknown type, not " +:+ Type_String (Ast_OutputType ast))
       ErrorTypeInvalid)
  /\ (Ast_OutputType ast = cel_BoolType \/ Ast_OutputType ast = cel_AnyType ->
      forall e, Error (CompileCELExpression c expression options) = Some e ->
                Type_ e <> ErrorTypeInvalid).
Proof.
  intros Henv Hast. unfold CompileCELExpression. rewrite Henv, Hast. split.
  - intros Hb Ha. by rewrite output_type_check_fails.
  - intros Hty e. rewrite output_type_check_passes by done.
    destruct (cel_AstToCheckedExpr ast); [|by intros [= <-]].
    destruct (Env_Program _ _ _); [|by intros [= <-]].
    destruct (Env_EstimateCost _ _ _); [done | by intros [= <-]].
Qed.

(** C5. A result with an Invalid error carries no program: it is the error
    and the echoed expression, every other field empty. *)
Theorem CompileCELExpression_invalid_no_program
    (c : compiler) (expression : string) (options : Options) e :
  Error (CompileCELExpression c expression options) = Some e ->
  Type_ e = ErrorTypeInvalid ->
  Program (CompileCELExpression c expression options) = None
  /\ CompileCELExpression c expression options =
       error_result expression (Detail e) ErrorTypeInvalid.
Proof.
  unfold CompileCELExpression.
  destruct (EnvSet_Env _ _) as [env|err]; [|by intros [= <-]].
  destruct (Env_Compile env expression) as [ast|issues]; [|by intros [= <-]].
  destruct (_ && _); [by intros [= <-]|].
  destruct (cel_AstToCheckedExpr ast); [|by intros [= <-]].
  destruct (Env_Program _ _ _); [|by intros [= <-]].
  destruct (Env_EstimateCost _ _ _); [done | by intros [= <-]].
Qed.

(** C6. When compilation succeeds up to program instantiation and cost
    estimation then fails, the result carries an Internal error together
    with the program, the output type and the environment, and its
    [MaxCost] is zero. *)
Theorem CompileCELExpression_cost_estimation_fails
    (c : compiler) (expression : string) (options : Options) env ast checked prog err :
  EnvSet_Env (envset c) (ptr_Deref (EnvType options) environment_StoredExpressions) = Ok env ->
  Env_Compile env expression = inl ast ->
  Ast_OutputType ast = cel_BoolType \/ Ast_OutputType ast = cel_AnyType ->
  cel_AstToCheckedExpr ast = Ok checked ->
  Env_Program env ast
    [cel_CostLimit (ptr_Deref (CostLimit options) resourceapi_CELSelectorExpressionMaxCost);
     cel_InterruptCheckFrequency celconfig_CheckFrequency] = Ok prog ->
  Env_EstimateCost env ast CostEstimator_zero = Err err ->
  CompileCELExpression c expression options =
    {| Program := Some prog;
       Error := Some {| Type_ := ErrorTypeInternal;
                        Detail := "cost estimation failed: " +:+ Error_string err |};
       Expression := expression;
       OutputType := Some (Ast_OutputType ast);
       Environment := Some env;
       MaxCost := 0%N;
       emptyMapVal := Some (Adapter_NativeToValue (Env_CELTypeAdapter env) (any_map_any ∅)) |}.
Proof.
  intros Henv Hast Hty Hchk Hprog Hcost. unfold CompileCELExpression.
  rewrite Henv, Hast, output_type_check_passes by done.
  by rewrite Hchk, Hprog, Hcost.
Qed.

End Compile.

(** A string-valued expression is rejected, naming both types. *)
Lemma CompileCELExpression_output_type_witness :
  CompileCELExpression (RT := Sample.runtime)
    Sample.sample_compiler "device.driver" Sample.sample_options
  = error_result (TY := Sample.types) "device.driver"
      "must evaluate to bool or the unknown type, not string" ErrorTypeInvalid.
Proof.
  apply (proj1 (CompileCELExpression_output_type (RT := Sample.runtime)
           Sample.sample_compiler "device.driver" Sample.sample_options
           tt ("device.driver", Sample.TyString) eq_refl eq_refl));
    discriminate.
Defined.

(** An expression that does not type-check leaves no program behind. *)
Lemma CompileCELExpression_invalid_no_program_witness :
  Program (CompileCELExpression (RT := Sample.runtime) Sample.sample_compiler "device.model" Sample.sample_options)
  = None.
Proof.
  apply (proj1 (CompileCELExpression_invalid_no_program (RT := Sample.runtime)
           Sample.sample_compiler "device.model" Sample.sample_options
           {| Type_ := ErrorTypeInvalid;
              Detail := "compilation failed: ERROR: <input>:1:1: undeclared reference to 'device.model'" |}
           eq_refl eq_refl)).
Defined.

(** The sample runtime has no cost estimate for [cel.bind]: the result
    keeps the program next to the Internal error. *)
Lemma CompileCELExpression_cost_estimation_fails_witness :
  Program (CompileCELExpression (RT := Sample.runtime)
             Sample.sample_compiler "cel.bind(x, true, x)" Sample.sample_options)
  = Some "cel.bind(x, true, x)"
  /\ Error (CompileCELExpression (RT := Sample.runtime)
              Sample.sample_compiler "cel.bind(x, true, x)" Sample.sample_options)
     = Some {| Type_ := ErrorTypeInternal;
               Detail := "cost estimation failed: no estimate for cel.bind" |}.
Proof.
  rewrite (CompileCELExpression_cost_estimation_fails (RT := Sample.runtime)
             Sample.sample_compiler "cel.bind(x, true, x)" Sample.sample_options
             tt ("cel.bind(x, true, x)", Sample.TyBool) tt "cel.bind(x, true, x)"
             (errors_New "no estimate for cel.bind")
             eq_refl eq_refl (or_introl eq_refl) eq_refl eq_refl eq_refl).
  split; reflexivity.
Defined.

(** ** Nested maps *)

Section NestedFacts.
Context {TY : CelTypes} {V : Type}.
Variable wrap : gmap string V -> any.
Variable unwrap : any -> option (gmap string V).
Hypothesis unwrap_wrap : forall m, unwrap (wrap m) = Some m.

Lemma inner_of_wrapped (outer : gmap string any) domain inner :
  outer !! domain = Some (wrap inner) -> inner_of unwrap outer domain = inner.
Proof. unfold inner_of. intros ->. by rewrite unwrap_wrap. Qed.

Lemma inner_of_absent (outer : gmap string any) domain :
  outer !! domain = None -> inner_of unwrap outer domain = ∅.
Proof. unfold inner_of. by intros ->. Qed.

Lemma inner_of_nested_insert (outer : gmap string any) domain id x domain' :
  inner_of unwrap (nested_insert wrap unwrap outer domain id x) domain' =
    if decide (domain = domain')
    then <[id := x]> (inner_of unwrap outer domain)
    else inner_of unwrap outer domain'.
Proof.
  unfold nested_insert. destruct (decide (domain = domain')) as [<-|Hne].
  - apply inner_of_wrapped, lookup_insert_eq.
  - unfold inner_of at 1. rewrite lookup_insert_ne by done. done.
Qed.

Lemma has_entry_empty domain id : ~ has_entry unwrap ∅ domain id.
Proof.
  unfold has_entry. rewrite inner_of_absent by apply lookup_empty.
  rewrite lookup_empty. by intros [? ?].
Qed.

Lemma has_entry_nested_insert (outer : gmap string any) domain id x domain' id' :
  has_entry unwrap (nested_insert wrap unwrap outer domain id x) domain' id'
  <-> has_entry unwrap outer domain' id' \/ (domain' = domain /\ id' = id).
Proof.
  unfold has_entry. rewrite inner_of_nested_insert.
  destruct (decide (domain = domain')) as [<-|Hne].
  - destruct (decide (id = id')) as [<-|Hid].
    + rewrite lookup_insert_eq. split; [by right | by eexists].
    + rewrite lookup_insert_ne by done. split; [by left | by intros [?|[_ ->]]].
  - split; [by left | by intros [?|[-> _]]].
Qed.

Lemma two_level_empty : two_level wrap ∅.
Proof. intros domain v. by rewrite lookup_empty. Qed.

Lemma two_level_nested_insert (outer : gmap string any) domain id x :
  two_level wrap outer -> two_level wrap (nested_insert wrap unwrap outer domain id x).
Proof.
  intros Hwf domain' v. unfold nested_insert.
  destruct (decide (domain = domain')) as [<-|Hne].
  - rewrite lookup_insert_eq. intros [= <-]. eexists; split; [done|].
    apply insert_non_empty.
  - rewrite lookup_insert_ne by done. apply Hwf.
Qed.

(** In a two-level map a domain is a key exactly when some identifier was
    inserted under it. *)
Lemma two_level_domain (outer : gmap string any) domain :
  two_level wrap outer ->
  is_Some (outer !! domain) <-> exists id, has_entry unwrap outer domain id.
Proof.
  intros Hwf. unfold has_entry. split.
  - intros [v Hv]. destruct (Hwf _ _ Hv) as (inner & -> & Hne).
    rewrite (inner_of_wrapped _ _ _ Hv).
    destruct (map_choose _ Hne) as (id & x & Hx). exists id. by eexists.
  - intros [id [x Hx]]. destruct (outer !! domain) eqn:Hd; [by eexists|].
    rewrite (inner_of_absent _ _ Hd), lookup_empty in Hx. done.
Qed.

End NestedFacts.

(** ** Evaluation *)

Section DeviceMatches.
Context {TY : CelTypes} {RT : CelRuntime}.

Lemma unwrap_map_any_wrap (m : gmap string any) : unwrap_map_any (any_map_any m) = Some m.
Proof. done. Qed.

Lemma unwrap_map_Quantity_wrap (m : gmap string apiservercel_Quantity) :
  unwrap_map_Quantity (any_map_Quantity m) = Some m.
Proof. done. Qed.

Lemma getAttributeValue_scalar attr value :
  getAttributeValue attr = (value, None) -> is_scalar value.
Proof.
  unfold getAttributeValue.
  destruct (IntValue attr), (BoolValue attr), (StringValue attr),
    (VersionValue attr) as [text|];
    try destruct (semver_Parse text); intros [= <-]; exact I.
Qed.

(** The conditional creation of the inner map, then the type assertion on
    the entry: the assertion holds, and what it yields is the inner map of
    the domain, empty when the domain is new. *)
Lemma attributes_get_or_create (attributes : gmap string any) domain :
  two_level any_map_any attributes ->
  let attributes' :=
    if is_nil (map_index attributes domain)
    then <[domain := any_map_any ∅]> attributes
    else attributes in
  assert_map_any (map_index attributes' domain)
    = Returns (inner_of unwrap_map_any attributes domain)
  /\ forall v, <[domain := v]> attributes' = <[domain := v]> attributes.
Proof.
  intros Hwf. unfold map_index, inner_of.
  destruct (attributes !! domain) as [v|] eqn:Hd.
  - destruct (Hwf _ _ Hd) as (inner & -> & _). cbn. by rewrite Hd.
  - cbn. rewrite lookup_insert_eq. split; [done|].
    intros v. apply insert_insert_eq.
Qed.

Lemma capacity_get_or_create (capacity : gmap string any) domain :
  two_level any_map_Quantity capacity ->
  let capacity' :=
    if is_nil (map_index capacity domain)
    then <[domain := any_map_Quantity ∅]> capacity
    else capacity in
  assert_map_Quantity (map_index capacity' domain)
    = Returns (inner_of unwrap_map_Quantity capacity domain)
  /\ forall v, <[domain := v]> capacity' = <[domain := v]> capacity.
Proof.
  intros Hwf. unfold map_index, inner_of.
  destruct (capacity !! domain) as [v|] eqn:Hd.
  - destruct (Hwf _ _ Hd) as (inner & -> & _). cbn. by rewrite Hd.
  - cbn. rewrite lookup_insert_eq. split; [done|].
    intros v. apply insert_insert_eq.
Qed.

(** One iteration of the first loop on an attribute that resolves. *)
Lemma DeviceMatches_attributes_step driver name attr entries
    (attributes : gmap string any) value domain id :
  two_level any_map_any attributes ->
  getAttributeValue attr = (value, None) ->
  parseQualifiedName name driver = Returns (domain, id) ->
  DeviceMatches_attributes driver ((name, attr) :: entries) attributes =
    DeviceMatches_attributes driver entries
      (nested_insert any_map_any unwrap_map_any attributes domain id value).
Proof.
  intros Hwf Hv Hp. cbn [DeviceMatches_attributes]. rewrite Hv, Hp.
  destruct (attributes_get_or_create attributes domain Hwf) as [Ha Hi].
  cbn [mbind outcome_bind]. cbv zeta in Ha, Hi. rewrite Ha.
  cbn [mbind outcome_bind]. by rewrite Hi.
Qed.

Lemma DeviceMatches_capacity_step driver name cap entries
    (capacity : gmap string any) domain id :
  two_level any_map_Quantity capacity ->
  parseQualifiedName name driver = Returns (domain, id) ->
  DeviceMatches_capacity driver ((name, cap) :: entries) capacity =
    DeviceMatches_capacity driver entries
      (nested_insert any_map_Quantity unwrap_map_Quantity capacity domain id
         {| Quantity := Value cap |}).
Proof.
  intros Hwf Hp. cbn [DeviceMatches_capacity]. rewrite Hp.
  destruct (capacity_get_or_create capacity domain Hwf) as [Ha Hi].
  cbn [mbind outcome_bind]. cbv zeta in Ha, Hi. rewrite Ha.
  cbn [mbind outcome_bind]. by rewrite Hi.
Qed.

Lemma scalar_leaves_empty : scalar_leaves ∅.
Proof.
  intros domain id x. rewrite inner_of_absent by apply lookup_empty.
  by rewrite lookup_empty.
Qed.

Lemma scalar_leaves_nested_insert (attributes : gmap string any) domain id value :
  scalar_leaves attributes -> is_scalar value ->
  scalar_leaves (nested_insert any_map_any unwrap_map_any attributes domain id value).
Proof.
  intros Hs Hv domain' id' x.
  rewrite (inner_of_nested_insert _ _ unwrap_map_any_wrap).
  destruct (decide (domain = domain')) as [<-|Hne]; [|apply Hs].
  destruct (decide (id = id')) as [<-|Hid].
  - rewrite lookup_insert_eq. by intros [= <-].
  - rewrite lookup_insert_ne by done. apply Hs.
Qed.

(** The first loop returns, never panics: either it leaves the function at
    an attribute that does not resolve, with the error that names it, or
    every attribute resolves and it ends with a two-level map that holds
    exactly the (domain, identifier) pairs of the entries, on top of those
    the map started with. *)
Lemma DeviceMatches_attributes_spec driver entries (attributes : gmap string any) :
  two_level any_map_any attributes -> scalar_leaves attributes ->
  (exists name attr value err,
      (name, attr) ∈ entries
      /\ getAttributeValue attr = (value, Some err)
      /\ DeviceMatches_attributes driver entries attributes =
           Returns (inl (false, None,
                         Some (fmt_Errorf_w
                                 ("attribute " +:+ name +:+ ": " +:+ Error_string err) err))))
  \/ (exists result,
      DeviceMatches_attributes driver entries attributes = Returns (inr result)
      /\ (forall name attr, (name, attr) ∈ entries -> (getAttributeValue attr).2 = None)
      /\ two_level any_map_any result
      /\ scalar_leaves result
      /\ forall domain id,
           has_entry unwrap_map_any result domain id
           <-> has_entry unwrap_map_any attributes domain id
               \/ exists name attr, (name, attr) ∈ entries
                    /\ parseQualifiedName name driver = Returns (domain, id)).
Proof.
  revert attributes. induction entries as [|[name attr] entries IH]; intros attributes Hwf Hs.
  - right. exists attributes. repeat split; try done.
    + intros name attr Hin. by apply elem_of_nil in Hin.
    + by left.
    + intros [?|(name & attr & Hin & _)]; [done | by apply elem_of_nil in Hin].
  - destruct (getAttributeValue attr) as [value [err|]] eqn:Hv.
    + left. exists name, attr, value, err. split; [apply elem_of_cons; by left|].
      split; [done|]. cbn [DeviceMatches_attributes]. by rewrite Hv.
    + destruct (parseQualifiedName_returns name driver) as (domain & id & Hp).
      rewrite (DeviceMatches_attributes_step _ _ _ _ _ _ _ _ Hwf Hv Hp).
      destruct (IH (nested_insert any_map_any unwrap_map_any attributes domain id value))
        as [(name' & attr' & value' & err' & Hin & Hv' & Hret)
           |(result & Hret & Hall & Hwf' & Hs' & Hent)].
      * by apply two_level_nested_insert.
      * apply scalar_leaves_nested_insert; [done|]. by eapply getAttributeValue_scalar.
      * left. exists name', attr', value', err'.
        split; [apply elem_of_cons; by right | done].
      * right. exists result. split; [done|]. split; [|split; [done|split; [done|]]].
        { intros name' attr' [[= -> ->]|Hin]%elem_of_cons; [by rewrite Hv | by eapply Hall]. }
        intros domain' id'. rewrite Hent.
        rewrite (has_entry_nested_insert _ _ unwrap_map_any_wrap). split.
        { intros [[?|[-> ->]]|(name' & attr' & Hin & Hp')].
          - by left.
          - right. exists name, attr. split; [apply elem_of_cons; by left | done].
          - right. exists name', attr'. split; [apply elem_of_cons; by right | done]. }
        { intros [?|(name' & attr' & [[= -> ->]|Hin]%elem_of_cons & Hp')].
          - by left; left.
          - left; right. rewrite Hp in Hp'. by injection Hp' as -> ->.
          - right. by exists name', attr'. }
Qed.

(** The second loop always runs to its end. *)
Lemma DeviceMatches_capacity_spec driver entries (capacity : gmap string any) :
  two_level any_map_Quantity capacity ->
  exists result,
    DeviceMatches_capacity driver entries capacity = Returns result
    /\ two_level any_map_Quantity result
    /\ forall domain id,
         has_entry unwrap_map_Quantity result domain id
         <-> has_entry unwrap_map_Quantity capacity domain id
             \/ exists name cap, (name, cap) ∈ entries
                  /\ parseQualifiedName name driver = Returns (domain, id).
Proof.
  revert capacity. induction entries as [|[name cap] entries IH]; intros capacity Hwf.
  - exists capacity. repeat split; try done.
    + by left.
    + intros [?|(name & cap & Hin & _)]; [done | by apply elem_of_nil in Hin].
  - destruct (parseQualifiedName_returns name driver) as (domain & id & Hp).
    rewrite (DeviceMatches_capacity_step _ _ _ _ _ _ _ Hwf Hp).
    destruct (IH (nested_insert any_map_Quantity unwrap_map_Quantity capacity domain id
                    {| Quantity := Value cap |}))
      as (result & Hret & Hwf' & Hent).
    { by apply two_level_nested_insert. }
    exists result. split; [done|]. split; [done|].
    intros domain' id'. rewrite Hent.
    rewrite (has_entry_nested_insert _ _ unwrap_map_Quantity_wrap). split.
    + intros [[?|[-> ->]]|(name' & cap' & Hin & Hp')].
      * by left.
      * right. exists name, cap. split; [apply elem_of_cons; by left | done].
      * right. exists name', cap'. split; [apply elem_of_cons; by right | done].
    + intros [?|(name' & cap' & [[= -> ->]|Hin]%elem_of_cons & Hp')].
      * by left; left.
      * left; right. rewrite Hp in Hp'. by injection Hp' as -> ->.
      * right. by exists name', cap'.
Qed.

(** The entries of a [range] are the entries of the map. *)
Lemma ranges_elem_of {A : Type} (order : list (string * A)) (m : gmap string A) name a :
  ranges order m -> (name, a) ∈ order <-> m !! name = Some a.
Proof. unfold ranges. intros ->. apply elem_of_map_to_list. Qed.

(** Normalization, for every order of the two ranges: the first loop either
    stops at an attribute that does not resolve or both loops end. *)
Lemma DeviceMatches_normalizes (input : Device) attributesOrder capacityOrder :
  ranges attributesOrder (Attributes input) ->
  (forall name attr, Attributes input !! name = Some attr ->
                     (getAttributeValue attr).2 = None) ->
  exists attributes capacity,
    DeviceMatches_attributes (Driver input) attributesOrder ∅ = Returns (inr attributes)
    /\ DeviceMatches_capacity (Driver input) capacityOrder ∅ = Returns capacity.
Proof.
  intros Ha Hall.
  destruct (DeviceMatches_attributes_spec (Driver input) attributesOrder ∅)
    as [(name & attr & value & err & Hin & Hv & _)|(attributes & Hret & _)].
  - apply two_level_empty.
  - apply scalar_leaves_empty.
  - apply (ranges_elem_of _ _ _ _ Ha), Hall in Hin. by rewrite Hv in Hin.
  - destruct (DeviceMatches_capacity_spec (Driver input) capacityOrder ∅)
      as (capacity & Hcap & _); [apply two_level_empty|].
    by exists attributes, capacity.
Qed.

(** Once both loops have ended, [DeviceMatches] calls the program on the
    wrapped maps and converts what it returns. *)
Lemma DeviceMatches_run c ctx (input : Device) attributesOrder capacityOrder
    attributes capacity env prog :
  DeviceMatches_attributes (Driver input) attributesOrder ∅ = Returns (inr attributes) ->
  DeviceMatches_capacity (Driver input) capacityOrder ∅ = Returns capacity ->
  Environment c = Some env -> Program c = Some prog ->
  DeviceMatches c ctx input attributesOrder capacityOrder =
    DeviceMatches_convert
      (Program_ContextEval prog ctx
         (DeviceMatches_variables c env input attributes capacity)).
Proof.
  intros Ha Hc He Hp. unfold DeviceMatches.
  rewrite Ha; cbn [mbind outcome_bind]. rewrite Hc; cbn [mbind outcome_bind].
  rewrite He; cbn [receiver mbind outcome_bind]. by rewrite Hp.
Qed.

Lemma DeviceMatches_convert_error evaluated matched details err :
  DeviceMatches_convert evaluated = Returns (matched, details, Some err) ->
  matched = false.
Proof.
  unfold DeviceMatches_convert. destruct evaluated as [[result|e] d]; [|congruence].
  destruct (Val_ConvertToNative result boolType) as [[]|e]; congruence.
Qed.

(** C3. When some attribute of the device does not resolve to a value,
    [DeviceMatches] returns, whatever the order in which the attributes are
    visited, without running the program: the result is an error that names
    an attribute of the device that does not resolve and wraps the error of
    its resolution, next to [false] and no evaluation details. *)
Theorem DeviceMatches_unresolved_attribute
    (c : CompilationResult) (ctx : context_Context) (input : Device)
    attributesOrder capacityOrder :
  ranges attributesOrder (Attributes input) ->
  (exists name attr, Attributes input !! name = Some attr
                     /\ (getAttributeValue attr).2 <> None) ->
  exists name attr err,
    Attributes input !! name = Some attr
    /\ (getAttributeValue attr).2 = Some err
    /\ DeviceMatches c ctx input attributesOrder capacityOrder =
         Returns (false, None,
                  Some (fmt_Errorf_w ("attribute " +:+ name +:+ ": " +:+ Error_string err)
                                     err)).
Proof.
  intros Ha (name0 & attr0 & Hin0 & Hfail).
  destruct (DeviceMatches_attributes_spec (Driver input) attributesOrder ∅)
    as [(name & attr & value & err & Hin & Hv & Hret)|(attributes & _ & Hall & _)].
  - apply two_level_empty.
  - apply scalar_leaves_empty.
  - exists name, attr, err. split; [by apply (ranges_elem_of _ _ _ _ Ha)|].
    split; [by rewrite Hv|]. unfold DeviceMatches. by rewrite Hret.
  - destruct Hfail. apply (Hall name0). by apply (ranges_elem_of _ _ _ _ Ha).
Qed.

(** C7. When the device normalizes and the program runs to completion with
    a value: if that value does not convert to a native boolean,
    [DeviceMatches] returns the conversion error, whose message names the
    type of the value; if the conversion yields something other than a
    boolean it returns an error as well; and it returns without an error
    only with the boolean the value converts to. *)
Theorem DeviceMatches_conversion_error
    (c : CompilationResult) (ctx : context_Context) (input : Device)
    attributesOrder capacityOrder attributes capacity env prog result details :
  DeviceMatches_attributes (Driver input) attributesOrder ∅ = Returns (inr attributes) ->
  DeviceMatches_capacity (Driver input) capacityOrder ∅ = Returns capacity ->
  Environment c = Some env -> Program c = Some prog ->
  Program_ContextEval prog ctx (DeviceMatches_variables c env input attributes capacity)
    = (Ok result, details) ->
  (forall err, Val_ConvertToNative result boolType = Err err ->
     DeviceMatches c ctx input attributesOrder capacityOrder =
       Returns (false, details,
                Some (fmt_Errorf_w
                        ("CEL result of type " +:+ Val_TypeName result
                         +:+ " could not be converted to bool: " +:+ Error_string err)
                        err)))
  /\ (forall native, Val_ConvertToNative result boolType = Ok native ->
      (forall b, native <> any_bool b) ->
      DeviceMatches c ctx input attributesOrder capacityOrder =
        Returns (false, details,
                 Some (errors_New
                         ("CEL native result value should have been a bool, got instead: "
                          +:+ fmt_T native))))
  /\ (forall matched details',
      DeviceMatches c ctx input attributesOrder capacityOrder =
        Returns (matched, details', None) ->
      Val_ConvertToNative result boolType = Ok (any_bool matched)).
Proof.
  intros Ha Hc He Hp Hrun.
  rewrite (DeviceMatches_run _ _ _ _ _ _ _ _ _ Ha Hc He Hp), Hrun.
  unfold DeviceMatches_convert. split; [|split].
  - by intros err ->.
  - intros native -> Hnb. destruct native; try done. by destruct (Hnb b).
  - intros matched details'.
    destruct (Val_ConvertToNative result boolType) as [[]|err]; congruence.
Qed.

(** C8. When every attribute of the device resolves, both loops of
    [DeviceMatches] end, whatever the order of the ranges, with maps of
    exactly two levels: every value of the attributes map is a non-empty
    [map[string]any] whose values are scalars, every value of the capacity
    map a non-empty map of quantities. A (domain, identifier) pair is in a
    map exactly when it is the parse of a name of the device, so a domain is
    a key of the outer map exactly when an identifier was inserted under it.
    These are the maps that are wrapped and handed to the program. *)
Theorem DeviceMatches_maps_two_level (input : Device) attributesOrder capacityOrder :
  ranges attributesOrder (Attributes input) ->
  ranges capacityOrder (Capacity input) ->
  (forall name attr, Attributes input !! name = Some attr ->
                     (getAttributeValue attr).2 = None) ->
  exists attributes capacity,
    DeviceMatches_attributes (Driver input) attributesOrder ∅ = Returns (inr attributes)
    /\ DeviceMatches_capacity (Driver input) capacityOrder ∅ = Returns capacity
    /\ (forall c ctx env prog, Environment c = Some env -> Program c = Some prog ->
        DeviceMatches c ctx input attributesOrder capacityOrder =
          DeviceMatches_convert
            (Program_ContextEval prog ctx
               (DeviceMatches_variables c env input attributes capacity)))
    /\ two_level any_map_any attributes
    /\ scalar_leaves attributes
    /\ two_level any_map_Quantity capacity
    /\ (forall domain id,
          has_entry unwrap_map_any attributes domain id
          <-> exists name attr, Attributes input !! name = Some attr
                /\ parseQualifiedName name (Driver input) = Returns (domain, id))
    /\ (forall domain id,
          has_entry unwrap_map_Quantity capacity domain id
          <-> exists name cap, Capacity input !! name = Some cap
                /\ parseQualifiedName name (Driver input) = Returns (domain, id))
    /\ (forall domain,
          is_Some (attributes !! domain)
          <-> exists id, has_entry unwrap_map_any attributes domain id)
    /\ (forall domain,
          is_Some (capacity !! domain)
          <-> exists id, has_entry unwrap_map_Quantity capacity domain id).
Proof.
  intros Ha Hc Hall.
  destruct (DeviceMatches_attributes_spec (Driver input) attributesOrder ∅)
    as [(name & attr & value & err & Hin & Hv & _)
       |(attributes & Hret & _ & Hwf & Hs & Hent)].
  - apply two_level_empty.
  - apply scalar_leaves_empty.
  - apply (ranges_elem_of _ _ _ _ Ha), Hall in Hin. by rewrite Hv in Hin.
  - destruct (DeviceMatches_capacity_spec (Driver input) capacityOrder ∅)
      as (capacity & Hcap & Hwfc & Hentc); [apply two_level_empty|].
    exists attributes, capacity.
    split; [done|]. split; [done|].
    split; [intros; by apply DeviceMatches_run|].
    split; [done|]. split; [done|]. split; [done|].
    split; [|split; [|split]].
    + intros domain id. rewrite Hent. split.
      * intros [Hempty|(name & attr & Hin & Hp)];
          [by apply (has_entry_empty unwrap_map_any) in Hempty|].
        exists name, attr. by rewrite <- (ranges_elem_of _ _ _ _ Ha).
      * intros (name & attr & Hin & Hp). right. exists name, attr.
        by rewrite (ranges_elem_of _ _ _ _ Ha).
    + intros domain id. rewrite Hentc. split.
      * intros [Hempty|(name & cap & Hin & Hp)];
          [by apply (has_entry_empty unwrap_map_Quantity) in Hempty|].
        exists name, cap. by rewrite <- (ranges_elem_of _ _ _ _ Hc).
      * intros (name & cap & Hin & Hp). right. exists name, cap.
        by rewrite (ranges_elem_of _ _ _ _ Hc).
    + intros domain. by apply (two_level_domain _ _ unwrap_map_any_wrap).
    + intros domain. by apply (two_level_domain _ _ unwrap_map_Quantity_wrap).
Qed.

(** C10. Whenever [DeviceMatches] returns an error, the boolean next to it
    is [false]. *)
Theorem DeviceMatches_error_false
    (c : CompilationResult) (ctx : context_Context) (input : Device)
    attributesOrder capacityOrder matched details err :
  DeviceMatches c ctx input attributesOrder capacityOrder
    = Returns (matched, details, Some err) ->
  matched = false.
Proof.
  destruct (DeviceMatches_attributes_spec (Driver input) attributesOrder ∅)
    as [(name & attr & value & err' & _ & _ & Hret)|(attributes & Hret & _)].
  - apply two_level_empty.
  - apply scalar_leaves_empty.
  - unfold DeviceMatches. rewrite Hret. cbn [mbind outcome_bind]. congruence.
  - destruct (DeviceMatches_capacity_spec (Driver input) capacityOrder ∅)
      as (capacity & Hcap & _); [apply two_level_empty|].
    unfold DeviceMatches. rewrite Hret; cbn [mbind outcome_bind].
    rewrite Hcap; cbn [mbind outcome_bind].
    destruct (Environment c); cbn [receiver mbind outcome_bind]; [|done].
    destruct (Program c); cbn [receiver mbind outcome_bind]; [|done].
    apply DeviceMatches_convert_error.
Qed.

End DeviceMatches.

(** ** Runs on the sample runtime *)

Section SampleRuns.
#[local] Existing Instances Sample.types Sample.runtime.

(** The device whose only attribute holds no value: the error names it. *)
Lemma DeviceMatches_unresolved_attribute_witness :
  exists name attr err,
    Attributes Sample.broken_device !! name = Some attr
    /\ (getAttributeValue (RT := Sample.runtime) attr).2 = Some err
    /\ DeviceMatches (RT := Sample.runtime)
         (CompileCELExpression Sample.sample_compiler "true" Sample.sample_options)
         tt Sample.broken_device (map_to_list (Attributes Sample.broken_device)) []
       = Returns (false, None,
                  Some (fmt_Errorf_w ("attribute " +:+ name +:+ ": " +:+ Error_string err)
                                     err)).
Proof.
  apply (DeviceMatches_unresolved_attribute (RT := Sample.runtime)).
  - unfold ranges. reflexivity.
  - exists "model", {| IntValue := None; BoolValue := None;
                       StringValue := None; VersionValue := None |}.
    split; [apply lookup_singleton_eq | discriminate].
Defined.

Example DeviceMatches_broken_device :
  DeviceMatches (RT := Sample.runtime)
    (CompileCELExpression Sample.sample_compiler "true" Sample.sample_options)
    tt Sample.broken_device (map_to_list (Attributes Sample.broken_device)) []
  = Returns (false, None,
             Some (fmt_Errorf_w "attribute model: unsupported attribute value"
                                (errors_New "unsupported attribute value"))).
Proof. vm_compute. reflexivity. Qed.

Example DeviceMatches_gpu_device :
  DeviceMatches (RT := Sample.runtime)
    (CompileCELExpression Sample.sample_compiler "true" Sample.sample_options)
    tt Sample.gpu_device (map_to_list (Attributes Sample.gpu_device))
    (map_to_list (Capacity Sample.gpu_device))
  = Returns (true, Some 1%N, None).
Proof. vm_compute. reflexivity. Qed.

(** [dyn(1)] has the dynamic type and evaluates to an integer: the result
    is the conversion error, not a plain [false]. *)
Lemma DeviceMatches_conversion_error_witness :
  DeviceMatches (RT := Sample.runtime)
    (CompileCELExpression Sample.sample_compiler "dyn(1)" Sample.sample_options)
    tt Sample.gpu_device (map_to_list (Attributes Sample.gpu_device))
    (map_to_list (Capacity Sample.gpu_device))
  = Returns (false, Some 1%N,
             Some (fmt_Errorf_w
                     "CEL result of type int could not be converted to bool: type conversion error"
                     (errors_New "type conversion error"))).
Proof.
  destruct (DeviceMatches_normalizes (RT := Sample.runtime) Sample.gpu_device
              (map_to_list (Attributes Sample.gpu_device))
              (map_to_list (Capacity Sample.gpu_device)))
    as (attributes & capacity & Ha & Hc).
  - unfold ranges. reflexivity.
  - intros name attr Hin. unfold Sample.gpu_device in Hin. cbn [Attributes] in Hin.
    apply lookup_singleton_Some in Hin as [_ <-]. reflexivity.
  - assert (He : Environment (CompileCELExpression Sample.sample_compiler "dyn(1)"
                                Sample.sample_options) = Some tt)
      by (vm_compute; reflexivity).
    assert (Hp : Program (CompileCELExpression Sample.sample_compiler "dyn(1)"
                            Sample.sample_options) = Some "dyn(1)")
      by (vm_compute; reflexivity).
    assert (Hr : Program_ContextEval "dyn(1)" tt
                   (DeviceMatches_variables
                      (CompileCELExpression Sample.sample_compiler "dyn(1)"
                         Sample.sample_options)
                      tt Sample.gpu_device attributes capacity)
                 = (Ok (Sample.VInt 1), Some 1%N))
      by reflexivity.
    exact (proj1 (DeviceMatches_conversion_error (RT := Sample.runtime)
                    (CompileCELExpression Sample.sample_compiler "dyn(1)"
                       Sample.sample_options)
                    tt Sample.gpu_device (map_to_list (Attributes Sample.gpu_device))
                    (map_to_list (Capacity Sample.gpu_device))
                    attributes capacity tt "dyn(1)" (Sample.VInt 1) (Some 1%N)
                    Ha Hc He Hp Hr)
                 (errors_New "type conversion error") eq_refl).
Defined.

(** The maps built for [gpu_device]. *)
Lemma DeviceMatches_maps_two_level_witness :
  exists attributes capacity,
    DeviceMatches_attributes (RT := Sample.runtime) (Driver Sample.gpu_device)
      (map_to_list (Attributes Sample.gpu_device)) ∅ = Returns (inr attributes)
    /\ DeviceMatches_capacity (Driver Sample.gpu_device)
         (map_to_list (Capacity Sample.gpu_device)) ∅ = Returns capacity
    /\ two_level any_map_any attributes
    /\ scalar_leaves attributes
    /\ two_level any_map_Quantity capacity.
Proof.
  destruct (DeviceMatches_maps_two_level (RT := Sample.runtime) Sample.gpu_device
              (map_to_list (Attributes Sample.gpu_device))
              (map_to_list (Capacity Sample.gpu_device)))
    as (attributes & capacity & Ha & Hc & _ & Hwf & Hs & Hwfc & _).
  - unfold ranges. reflexivity.
  - unfold ranges. reflexivity.
  - intros name attr Hin. unfold Sample.gpu_device in Hin. cbn [Attributes] in Hin.
    apply lookup_singleton_Some in Hin as [_ <-]. reflexivity.
  - exists attributes, capacity.
    exact (conj Ha (conj Hc (conj Hwf (conj Hs Hwfc)))).
Defined.

Lemma DeviceMatches_error_false_witness :
  DeviceMatches (RT := Sample.runtime)
    (CompileCELExpression Sample.sample_compiler "true" Sample.sample_options)
    tt Sample.broken_device (map_to_list (Attributes Sample.broken_device)) []
  = Returns (false, None,
             Some (fmt_Errorf_w "attribute model: unsupported attribute value"
                                (errors_New "unsupported attribute value")))
  /\ false = false.
Proof.
  assert (Hrun : DeviceMatches (RT := Sample.runtime)
            (CompileCELExpression Sample.sample_compiler "true" Sample.sample_options)
            tt Sample.broken_device (map_to_list (Attributes Sample.broken_device)) []
          = Returns (false, None,
                     Some (fmt_Errorf_w "attribute model: unsupported attribute value"
                                        (errors_New "unsupported attribute value"))))
    by (vm_compute; reflexivity).
  split; [exact Hrun|].
  exact (DeviceMatches_error_false (RT := Sample.runtime) _ _ _ _ _ _ _ _ Hrun).
Defined.

End SampleRuns.

(** * Further properties *)

(** ** Qualified names, continued *)

Section ParseQualifiedNameMore.

Lemma not_no_slash_app a b : ~ no_slash (a +:+ "/" +:+ b).
Proof. unfold no_slash. by rewrite has_slash_app. Qed.

(** What a parse can be. *)
Lemma parseQualifiedName_inv name defaultDomain domain id :
  parseQualifiedName name defaultDomain = Returns (domain, id) ->
  (no_slash name /\ domain = defaultDomain /\ id = name)
  \/ (~ no_slash name /\ name = domain +:+ "/" +:+ id /\ no_slash domain).
Proof.
  destruct (first_slash name) as [Hn | (pre & post & -> & Hpre)].
  - rewrite parseQualifiedName_bare by done. intros [= <- <-]. by left.
  - rewrite parseQualifiedName_split by done. intros [= <- <-]. right.
    split; [apply not_no_slash_app | done].
Qed.

(** X1. Parsing a qualified name and joining the two parts with ['/'] gives
    the name back: when the name has a ['/'], the domain is the text before
    the first one and holds none itself, the identifier is all the rest, and
    the default domain plays no part; when it has none, the name is the
    identifier under the default domain. *)
Theorem parseQualifiedName_join (name defaultDomain domain id : string) :
  parseQualifiedName name defaultDomain = Returns (domain, id) ->
  (no_slash name /\ domain = defaultDomain /\ id = name)
  \/ (~ no_slash name /\ name = domain +:+ "/" +:+ id /\ no_slash domain
      /\ forall otherDefault,
           parseQualifiedName name otherDefault = Returns (domain, id)).
Proof.
  intros [?|(Hn & -> & Hd)]%parseQualifiedName_inv; [by left|]. right.
  split; [done|]. split; [done|]. split; [done|].
  intros otherDefault. by apply parseQualifiedName_split.
Qed.

(** X2. The edges of the split: the empty name is the empty identifier under
    the default domain; a name that starts with ['/'] has the empty domain,
    not the default one; a name whose only ['/'] is its last byte has the
    empty identifier; and only the first ['/'] splits, the later ones stay
    in the identifier. *)
Theorem parseQualifiedName_edges (defaultDomain : string) :
  parseQualifiedName "" defaultDomain = Returns (defaultDomain, "")
  /\ (forall post, parseQualifiedName ("/" +:+ post) defaultDomain = Returns ("", post))
  /\ (forall pre, no_slash pre ->
        parseQualifiedName (pre +:+ "/") defaultDomain = Returns (pre, ""))
  /\ (forall pre mid post, no_slash pre ->
        parseQualifiedName (pre +:+ "/" +:+ mid +:+ "/" +:+ post) defaultDomain
        = Returns (pre, mid +:+ "/" +:+ post)).
Proof.
  split; [done|]. split; [|split].
  - intros post. by apply (parseQualifiedName_split "" post).
  - intros pre Hpre. by apply (parseQualifiedName_split pre "").
  - intros pre mid post Hpre. by apply parseQualifiedName_split.
Qed.

(** X3. Two different names parse to the same pair exactly when one of them
    is the other with the default domain written out in front: [id] and
    [defaultDomain/id], where neither [defaultDomain] nor [id] holds a
    ['/']. *)
Theorem parseQualifiedName_collision (n1 n2 defaultDomain : string) :
  n1 <> n2 ->
  parseQualifiedName n1 defaultDomain = parseQualifiedName n2 defaultDomain
  <-> (n1 = defaultDomain +:+ "/" +:+ n2 /\ no_slash defaultDomain /\ no_slash n2)
      \/ (n2 = defaultDomain +:+ "/" +:+ n1 /\ no_slash defaultDomain /\ no_slash n1).
Proof.
  intros Hne. split.
  - intros Heq.
    destruct (parseQualifiedName_returns n1 defaultDomain) as (d & i & H1).
    pose proof H1 as H2. rewrite Heq in H2.
    apply parseQualifiedName_inv in H1 as [(Hs1 & Hd1 & Hi1)|(Hs1 & Hn1 & Hd1)];
      apply parseQualifiedName_inv in H2 as [(Hs2 & Hd2 & Hi2)|(Hs2 & Hn2 & Hd2)];
      subst.
    + by destruct Hne.
    + by right.
    + by left.
    + by destruct Hne.
  - intros [(-> & Hd & Hn)|(-> & Hd & Hn)].
    + by rewrite parseQualifiedName_split, parseQualifiedName_bare.
    + by rewrite parseQualifiedName_split, parseQualifiedName_bare.
Qed.

End ParseQualifiedNameMore.

Lemma parseQualifiedName_join_witness :
  (no_slash "a/b/c" /\ "a" = "driverX" /\ "b/c" = "a/b/c")
  \/ (~ no_slash "a/b/c" /\ "a/b/c" = "a" +:+ "/" +:+ "b/c" /\ no_slash "a"
      /\ forall otherDefault, parseQualifiedName "a/b/c" otherDefault = Returns ("a", "b/c")).
Proof.
  apply (parseQualifiedName_join "a/b/c" "driverX" "a" "b/c"). reflexivity.
Defined.

Lemma parseQualifiedName_edges_witness :
  parseQualifiedName "model/" "driverX" = Returns ("model", "").
Proof.
  apply (proj1 (proj2 (proj2 (parseQualifiedName_edges "driverX"))) "model").
  reflexivity.
Defined.

Lemma parseQualifiedName_collision_witness :
  parseQualifiedName "gpu.example.com/model" "gpu.example.com"
  = parseQualifiedName "model" "gpu.example.com".
Proof.
  apply (proj2 (parseQualifiedName_collision "gpu.example.com/model" "model"
                  "gpu.example.com" ltac:(discriminate))).
  left. repeat split.
Defined.

(** ** Attribute values, continued *)

Section GetAttributeValueMore.
Context {TY : CelTypes} {RT : CelRuntime}.

(** X4. [getAttributeValue] returns either a nil value with an error or a
    scalar (an integer, a boolean, a string or a version, never nil and
    never a map) with a nil error. *)
Theorem getAttributeValue_value_or_error (attr : DeviceAttribute) :
  (exists err, getAttributeValue attr = (any_nil, Some err))
  \/ (exists value, getAttributeValue attr = (value, None)
                    /\ is_scalar value /\ value <> any_nil).
Proof.
  unfold getAttributeValue.
  destruct (IntValue attr), (BoolValue attr), (StringValue attr),
    (VersionValue attr) as [text|];
    try destruct (semver_Parse text);
    solve [ left; by eexists | right; eexists; by repeat split ].
Qed.

End GetAttributeValueMore.

(** ** Compilation, continued *)

Section CompileMore.
Context {TY : CelTypes} {RT : CelRuntime}.

Lemma output_type_check_false ast :
  bool_decide (Ast_OutputType ast <> cel_BoolType)
  && bool_decide (Ast_OutputType ast <> cel_AnyType) = false ->
  Ast_OutputType ast = cel_BoolType \/ Ast_OutputType ast = cel_AnyType.
Proof.
  intros [Hb|Ha]%andb_false_iff; [left|right];
    apply bool_decide_eq_false in Hb || apply bool_decide_eq_false in Ha;
    by apply dec_stable.
Qed.

(** The result of [CompileCELExpression] is one of three: the bare error of
    a step that failed before the program was built, the full result with
    the error of the cost estimation, or the full result without error. *)
Lemma CompileCELExpression_cases (c : compiler) (expression : string) (options : Options) :
  (exists detail kind,
      CompileCELExpression c expression options = error_result expression detail kind
      /\ forall env ast prog, ~ compiles c expression options env ast prog)
  \/ (exists env ast prog,
      compiles c expression options env ast prog
      /\ ((exists err,
             Env_EstimateCost env ast CostEstimator_zero = Err err
             /\ CompileCELExpression c expression options =
                  {| Program := Some prog;
                     Error := Some {| Type_ := ErrorTypeInternal;
                                      Detail := "cost estimation failed: "
                                                +:+ Error_string err |};
                     Expression := expression;
                     OutputType := Some (Ast_OutputType ast);
                     Environment := Some env;
                     MaxCost := 0%N;
                     emptyMapVal :=
                       Some (Adapter_NativeToValue (Env_CELTypeAdapter env)
                               (any_map_any ∅)) |})
          \/ (exists costEst,
             Env_EstimateCost env ast CostEstimator_zero = Ok costEst
             /\ CompileCELExpression c expression options =
                  success_result expression env ast prog costEst))).
Proof.
  unfold CompileCELExpression, compiles, program_options.
  destruct (EnvSet_Env _ _) as [env|err] eqn:Henv.
  2: { left. eexists _, _. split; [reflexivity|]. by intros ? ? ? (? & _). }
  destruct (Env_Compile env expression) as [ast|issues] eqn:Hast.
  2: { left. eexists _, _. split; [reflexivity|].
       intros ? ? ? ([= <-] & ? & _). congruence. }
  destruct (_ && _) eqn:Hty.
  { left. eexists _, _. split; [reflexivity|].
    intros ? ? ? ([= <-] & Hast' & Hok & _).
    rewrite Hast in Hast'. injection Hast' as <-.
    by rewrite (output_type_check_passes _ Hok) in Hty. }
  apply output_type_check_false in Hty.
  destruct (cel_AstToCheckedExpr ast) as [checked|err] eqn:Hchk.
  2: { left. eexists _, _. split; [reflexivity|].
       intros ? ? ? ([= <-] & Hast' & _ & [? Hchk'] & _).
       rewrite Hast in Hast'. injection Hast' as <-. congruence. }
  destruct (Env_Program _ _ _) as [prog|err] eqn:Hprog.
  2: { left. eexists _, _. split; [reflexivity|].
       intros ? ? ? ([= <-] & Hast' & _ & _ & Hprog').
       rewrite Hast in Hast'. injection Hast' as <-. congruence. }
  right. exists env, ast, prog. split; [by eauto 10|].
  destruct (Env_EstimateCost _ _ _) as [costEst|err]; [right|left]; by eexists.
Qed.

Lemma compiles_functional c expression options env ast prog env' ast' prog' :
  compiles c expression options env ast prog ->
  compiles c expression options env' ast' prog' ->
  env' = env /\ ast' = ast /\ prog' = prog.
Proof.
  intros (He & Ha & _ & _ & Hp) (He' & Ha' & _ & _ & Hp').
  rewrite He in He'. injection He' as <-.
  rewrite Ha in Ha'. injection Ha' as <-.
  rewrite Hp in Hp'. by injection Hp' as <-.
Qed.

(** X5. Every result echoes the expression it was asked to compile,
    whichever step failed. *)
Theorem CompileCELExpression_echoes_expression
    (c : compiler) (expression : string) (options : Options) :
  Expression (CompileCELExpression c expression options) = expression.
Proof.
  destruct (CompileCELExpression_cases c expression options)
    as [(detail & kind & -> & _)
       |(env & ast & prog & _ & [(err & _ & ->)|(costEst & _ & ->)])]; done.
Qed.

(** X6. The output type of a result is never anything but boolean or
    dynamic: when [OutputType] is set, it is one of the two. *)
Theorem CompileCELExpression_output_type_bool_or_any
    (c : compiler) (expression : string) (options : Options) ty :
  OutputType (CompileCELExpression c expression options) = Some ty ->
  ty = cel_BoolType \/ ty = cel_AnyType.
Proof.
  destruct (CompileCELExpression_cases c expression options)
    as [(detail & kind & -> & _)
       |(env & ast & prog & (_ & _ & Hty & _) & [(err & _ & ->)|(costEst & _ & ->)])];
    cbn; [done | by intros [= <-] ..].
Qed.

(** X7. The fields of a result come all together or not at all: either the
    program, the output type, the environment and the empty map value are
    all nil, the cost is zero and there is an error, or all four are set,
    the environment and the program being those the steps produced and the
    empty map value the empty map adapted by that environment. *)
Theorem CompileCELExpression_all_or_nothing
    (c : compiler) (expression : string) (options : Options) :
  let r := CompileCELExpression c expression options in
  (Program r = None /\ OutputType r = None /\ Environment r = None
   /\ emptyMapVal r = None /\ MaxCost r = 0%N /\ is_Some (Error r))
  \/ (exists env ast prog,
        compiles c expression options env ast prog
        /\ Program r = Some prog /\ OutputType r = Some (Ast_OutputType ast)
        /\ Environment r = Some env
        /\ emptyMapVal r =
             Some (Adapter_NativeToValue (Env_CELTypeAdapter env) (any_map_any ∅))).
Proof.
  cbv zeta.
  destruct (CompileCELExpression_cases c expression options)
    as [(detail & kind & -> & _)
       |(env & ast & prog & Hc & [(err & _ & ->)|(costEst & _ & ->)])].
  - left. cbn. by repeat split.
  - right. by exists env, ast, prog.
  - right. by exists env, ast, prog.
Qed.


(** X9. A result holds a program next to an error only after a failed cost
    estimation: the error is then Internal, its detail is that of the
    estimation and [MaxCost] is zero. *)
Theorem CompileCELExpression_program_with_error
    (c : compiler) (expression : string) (options : Options) prog e :
  Program (CompileCELExpression c expression options) = Some prog ->
  Error (CompileCELExpression c expression options) = Some e ->
  Type_ e = ErrorTypeInternal
  /\ MaxCost (CompileCELExpression c expression options) = 0%N
  /\ exists env ast err,
       compiles c expression options env ast prog
       /\ Env_EstimateCost env ast CostEstimator_zero = Err err
       /\ Detail e = "cost estimation failed: " +:+ Error_string err.
Proof.
  destruct (CompileCELExpression_cases c expression options)
    as [(detail & kind & -> & _)
       |(env & ast & prog' & Hc & [(err & Hcost & ->)|(costEst & _ & ->)])];
    cbn; [done | | done].
  intros [= <-] [= <-]. split; [done|]. split; [done|]. by exists env, ast, err.
Qed.

(** X10. What each failing step leaves: a failed load of the environment is
    an Internal error and the expression is not looked at; issues from
    [env.Compile] are an Invalid error that carries their text; a failed
    conversion of the checked expression and a failed instantiation of the
    program are Internal errors. In all four the result is the error and
    the expression only. *)
Theorem CompileCELExpression_step_failures
    (c : compiler) (expression : string) (options : Options) :
  (forall err,
     EnvSet_Env (envset c) (ptr_Deref (EnvType options) environment_StoredExpressions)
       = Err err ->
     CompileCELExpression c expression options =
       error_result expression
         ("unexpected error loading CEL environment: " +:+ Error_string err)
         ErrorTypeInternal)
  /\ (forall env,
      EnvSet_Env (envset c) (ptr_Deref (EnvType options) environment_StoredExpressions)
        = Ok env ->
      (forall issues, Env_Compile env expression = inr issues ->
         CompileCELExpression c expression options =
           error_result expression ("compilation failed: " +:+ Issues_String issues)
             ErrorTypeInvalid)
      /\ (forall ast, Env_Compile env expression = inl ast ->
          Ast_OutputType ast = cel_BoolType \/ Ast_OutputType ast = cel_AnyType ->
          (forall err, cel_AstToCheckedExpr ast = Err err ->
             CompileCELExpression c expression options =
               error_result expression
                 ("unexpected compilation error: " +:+ Error_string err)
                 ErrorTypeInternal)
          /\ (forall checked err, cel_AstToCheckedExpr ast = Ok checked ->
              Env_Program env ast (program_options options) = Err err ->
              CompileCELExpression c expression options =
                error_result expression
                  ("program instantiation failed: " +:+ Error_string err)
                  ErrorTypeInternal))).
Proof.
  unfold CompileCELExpression, program_options. split.
  - by intros err ->.
  - intros env ->. split; [by intros issues ->|].
    intros ast -> Hty. rewrite output_type_check_passes by done. split.
    + by intros err ->.
    + by intros checked err -> ->.
Qed.

(** The options count only through their values after the defaults
    are filled in: a nil option and the default written out give the same
    result. *)
Theorem CompileCELExpression_options_defaults
    (c : compiler) (expression : string) (options options' : Options) :
  ptr_Deref (EnvType options) environment_StoredExpressions
    = ptr_Deref (EnvType options') environment_StoredExpressions ->
  ptr_Deref (CostLimit options) resourceapi_CELSelectorExpressionMaxCost
    = ptr_Deref (CostLimit options') resourceapi_CELSelectorExpressionMaxCost ->
  CompileCELExpression c expression options = CompileCELExpression c expression options'.
Proof. intros He Hc. unfold CompileCELExpression. by rewrite He, Hc. Qed.

End CompileMore.

Section CompileMoreRuns.
#[local] Existing Instances Sample.types Sample.runtime.

Lemma CompileCELExpression_output_type_bool_or_any_witness :
  OutputType (CompileCELExpression Sample.sample_compiler "dyn(1)" Sample.sample_options)
  = Some Sample.TyDyn
  /\ (Sample.TyDyn = Sample.TyBool \/ Sample.TyDyn = Sample.TyDyn).
Proof.
  assert (Hty : OutputType (CompileCELExpression Sample.sample_compiler "dyn(1)"
                              Sample.sample_options) = Some Sample.TyDyn)
    by (vm_compute; reflexivity).
  split; [exact Hty|].
  exact (CompileCELExpression_output_type_bool_or_any (RT := Sample.runtime)
           Sample.sample_compiler "dyn(1)" Sample.sample_options Sample.TyDyn Hty).
Defined.


Lemma CompileCELExpression_program_with_error_witness :
  MaxCost (CompileCELExpression Sample.sample_compiler "cel.bind(x, true, x)"
             Sample.sample_options) = 0%N.
Proof.
  assert (Hp : Program (CompileCELExpression Sample.sample_compiler "cel.bind(x, true, x)"
                          Sample.sample_options) = Some "cel.bind(x, true, x)")
    by (vm_compute; reflexivity).
  assert (He : Error (CompileCELExpression Sample.sample_compiler "cel.bind(x, true, x)"
                        Sample.sample_options)
               = Some {| Type_ := ErrorTypeInternal;
                         Detail := "cost estimation failed: no estimate for cel.bind" |})
    by (vm_compute; reflexivity).
  exact (proj1 (proj2 (CompileCELExpression_program_with_error (RT := Sample.runtime)
                         Sample.sample_compiler "cel.bind(x, true, x)"
                         Sample.sample_options _ _ Hp He))).
Defined.

Lemma CompileCELExpression_step_failures_witness :
  CompileCELExpression Sample.sample_compiler "device.model" Sample.sample_options =
    error_result "device.model"
      "compilation failed: ERROR: <input>:1:1: undeclared reference to 'device.model'"
      ErrorTypeInvalid.
Proof.
  apply (proj1 (proj2 (CompileCELExpression_step_failures (RT := Sample.runtime)
                         Sample.sample_compiler "device.model" Sample.sample_options)
                  tt eq_refl)
           "ERROR: <input>:1:1: undeclared reference to 'device.model'").
  reflexivity.
Defined.

Lemma CompileCELExpression_options_defaults_witness :
  CompileCELExpression Sample.sample_compiler "true" Sample.sample_options
  = CompileCELExpression Sample.sample_compiler "true"
      {| EnvType := Some tt; CostLimit := Some 1000000%N |}.
Proof.
  apply (CompileCELExpression_options_defaults (RT := Sample.runtime)); reflexivity.
Defined.

End CompileMoreRuns.

(** ** The map with a default value, continued *)

Section MapperMore.
Context {TY : CelTypes} {RT : CelRuntime}.

(** X11. A wrapped mapper never reports a miss, so wrapping it once more,
    with whatever default, changes no lookup: the second default is never
    returned. *)
Theorem mapper_Find_rewrap (m : mapper) (default' : option ref_Val) (key : ref_Val) :
  Find {| Mapper := mapper_Mapper m; defaultValue := default' |} key = Find m key.
Proof.
  unfold Find at 1. cbn [Mapper mapper_Mapper Mapper_Find defaultValue].
  pose proof (Find_found m key) as Hfound.
  destruct (Find m key) as [value found]. cbn in Hfound. by rewrite Hfound.
Qed.

End MapperMore.

(** ** Nested maps, continued *)

Section NestedMore.
Context {TY : CelTypes} {V : Type}.
Variable wrap : gmap string V -> any.
Variable unwrap : any -> option (gmap string V).
Hypothesis unwrap_wrap : forall m, unwrap (wrap m) = Some m.


Lemma two_level_lookup (outer : gmap string any) domain id x :
  two_level wrap outer ->
  inner_of unwrap outer domain !! id = Some x ->
  exists inner, outer !! domain = Some (wrap inner) /\ inner !! id = Some x.
Proof.
  intros Hwf Hx. destruct (outer !! domain) as [v|] eqn:Hd.
  - destruct (Hwf _ _ Hd) as (inner & -> & _). exists inner. split; [done|].
    by rewrite (inner_of_wrapped _ _ unwrap_wrap _ _ _ Hd) in Hx.
  - by rewrite (inner_of_absent _ _ _ Hd), lookup_empty in Hx.
Qed.

End NestedMore.

(** ** Evaluation, continued *)

Section DeviceMatchesMore.
Context {TY : CelTypes} {RT : CelRuntime}.

(** A run of the first loop that reaches its end went through its first
    entry without an error. *)
Lemma DeviceMatches_attributes_cons_inr driver name attr entries
    (attributes result : gmap string any) :
  two_level any_map_any attributes ->
  DeviceMatches_attributes driver ((name, attr) :: entries) attributes
    = Returns (inr result) ->
  exists value domain id,
    getAttributeValue attr = (value, None)
    /\ parseQualifiedName name driver = Returns (domain, id)
    /\ DeviceMatches_attributes driver entries
         (nested_insert any_map_any unwrap_map_any attributes domain id value)
       = Returns (inr result).
Proof.
  intros Hwf Hrun. destruct (getAttributeValue attr) as [value [err|]] eqn:Hv.
  - cbn [DeviceMatches_attributes] in Hrun. by rewrite Hv in Hrun.
  - destruct (parseQualifiedName_returns name driver) as (domain & id & Hp).
    rewrite (DeviceMatches_attributes_step _ _ _ _ _ _ _ _ Hwf Hv Hp) in Hrun.
    by exists value, domain, id.
Qed.

Lemma DeviceMatches_capacity_cons driver name cap entries
    (capacity result : gmap string any) :
  two_level any_map_Quantity capacity ->
  DeviceMatches_capacity driver ((name, cap) :: entries) capacity = Returns result ->
  exists domain id,
    parseQualifiedName name driver = Returns (domain, id)
    /\ DeviceMatches_capacity driver entries
         (nested_insert any_map_Quantity unwrap_map_Quantity capacity domain id
            {| Quantity := Value cap |})
       = Returns result.
Proof.
  intros Hwf Hrun.
  destruct (parseQualifiedName_returns name driver) as (domain & id & Hp).
  rewrite (DeviceMatches_capacity_step _ _ _ _ _ _ _ Hwf Hp) in Hrun.
  by exists domain, id.
Qed.

(** Entries that parse to other pairs leave a pair as it was. *)
Lemma DeviceMatches_attributes_preserves driver entries
    (attributes result : gmap string any) domain id :
  two_level any_map_any attributes ->
  DeviceMatches_attributes driver entries attributes = Returns (inr result) ->
  (forall name attr, (name, attr) ∈ entries ->
     parseQualifiedName name driver <> Returns (domain, id)) ->
  inner_of unwrap_map_any result domain !! id
  = inner_of unwrap_map_any attributes domain !! id.
Proof.
  revert attributes. induction entries as [|[name attr] entries IH];
    intros attributes Hwf Hrun Hother.
  - cbn in Hrun. by injection Hrun as <-.
  - apply DeviceMatches_attributes_cons_inr in Hrun
      as (value & domain' & id' & Hv & Hp & Hrun); [|done].
    rewrite (IH _ (two_level_nested_insert _ _ _ _ _ _ Hwf) Hrun).
    + rewrite (inner_of_nested_insert _ _ unwrap_map_any_wrap).
      destruct (decide (domain' = domain)) as [->|Hne]; [|done].
      apply lookup_insert_ne. intros ->.
      by apply (Hother name attr); [apply elem_of_cons; left|].
    + intros name' attr' Hin. apply (Hother name' attr'), elem_of_cons. by right.
Qed.

Lemma DeviceMatches_capacity_preserves driver entries
    (capacity result : gmap string any) domain id :
  two_level any_map_Quantity capacity ->
  DeviceMatches_capacity driver entries capacity = Returns result ->
  (forall name cap, (name, cap) ∈ entries ->
     parseQualifiedName name driver <> Returns (domain, id)) ->
  inner_of unwrap_map_Quantity result domain !! id
  = inner_of unwrap_map_Quantity capacity domain !! id.
Proof.
  revert capacity. induction entries as [|[name cap] entries IH];
    intros capacity Hwf Hrun Hother.
  - cbn in Hrun. by injection Hrun as <-.
  - apply DeviceMatches_capacity_cons in Hrun
      as (domain' & id' & Hp & Hrun); [|done].
    rewrite (IH _ (two_level_nested_insert _ _ _ _ _ _ Hwf) Hrun).
    + rewrite (inner_of_nested_insert _ _ unwrap_map_Quantity_wrap).
      destruct (decide (domain' = domain)) as [->|Hne]; [|done].
      apply lookup_insert_ne. intros ->.
      by apply (Hother name cap); [apply elem_of_cons; left|].
    + intros name' cap' Hin. apply (Hother name' cap'), elem_of_cons. by right.
Qed.

(** The last entry that parses to a pair decides what is stored there. *)
Lemma DeviceMatches_attributes_last driver pre name attr post
    (attributes result : gmap string any) value domain id :
  two_level any_map_any attributes ->
  DeviceMatches_attributes driver (pre ++ (name, attr) :: post) attributes
    = Returns (inr result) ->
  getAttributeValue attr = (value, None) ->
  parseQualifiedName name driver = Returns (domain, id) ->
  (forall name' attr', (name', attr') ∈ post ->
     parseQualifiedName name' driver <> Returns (domain, id)) ->
  inner_of unwrap_map_any result domain !! id = Some value.
Proof.
  revert attributes. induction pre as [|[name0 attr0] pre IH];
    intros attributes Hwf Hrun Hv Hp Hpost.
  - apply DeviceMatches_attributes_cons_inr in Hrun
      as (value' & domain' & id' & Hv' & Hp' & Hrun); [|done].
    rewrite Hv in Hv'. injection Hv' as <-.
    rewrite Hp in Hp'. injection Hp' as <- <-.
    rewrite (DeviceMatches_attributes_preserves _ _ _ _ _ _
               (two_level_nested_insert _ _ _ _ _ _ Hwf) Hrun Hpost).
    rewrite (inner_of_nested_insert _ _ unwrap_map_any_wrap).
    rewrite decide_True by done. apply lookup_insert_eq.
  - apply DeviceMatches_attributes_cons_inr in Hrun
      as (value' & domain' & id' & Hv' & Hp' & Hrun); [|done].
    by apply (IH _ (two_level_nested_insert _ _ _ _ _ _ Hwf) Hrun).
Qed.

Lemma DeviceMatches_capacity_last driver pre name cap post
    (capacity result : gmap string any) domain id :
  two_level any_map_Quantity capacity ->
  DeviceMatches_capacity driver (pre ++ (name, cap) :: post) capacity = Returns result ->
  parseQualifiedName name driver = Returns (domain, id) ->
  (forall name' cap', (name', cap') ∈ post ->
     parseQualifiedName name' driver <> Returns (domain, id)) ->
  inner_of unwrap_map_Quantity result domain !! id = Some {| Quantity := Value cap |}.
Proof.
  revert capacity. induction pre as [|[name0 cap0] pre IH];
    intros capacity Hwf Hrun Hp Hpost.
  - apply DeviceMatches_capacity_cons in Hrun as (domain' & id' & Hp' & Hrun); [|done].
    rewrite Hp in Hp'. injection Hp' as <- <-.
    rewrite (DeviceMatches_capacity_preserves _ _ _ _ _ _
               (two_level_nested_insert _ _ _ _ _ _ Hwf) Hrun Hpost).
    rewrite (inner_of_nested_insert _ _ unwrap_map_Quantity_wrap).
    rewrite decide_True by done. apply lookup_insert_eq.
  - apply DeviceMatches_capacity_cons in Hrun as (domain' & id' & Hp' & Hrun); [|done].
    by apply (IH _ (two_level_nested_insert _ _ _ _ _ _ Hwf) Hrun).
Qed.

(** What a finished run of a loop is known to have built. *)
Lemma DeviceMatches_attributes_inr driver entries (result : gmap string any) :
  DeviceMatches_attributes driver entries ∅ = Returns (inr result) ->
  (forall name attr, (name, attr) ∈ entries -> (getAttributeValue attr).2 = None)
  /\ two_level any_map_any result
  /\ scalar_leaves result
  /\ forall domain id,
       has_entry unwrap_map_any result domain id
       <-> exists name attr, (name, attr) ∈ entries
             /\ parseQualifiedName name driver = Returns (domain, id).
Proof.
  intros Hrun.
  destruct (DeviceMatches_attributes_spec driver entries ∅)
    as [(name & attr & value & err & _ & _ & Hret)
       |(result' & Hret & Hall & Hwf & Hs & Hent)].
  - apply two_level_empty.
  - apply scalar_leaves_empty.
  - congruence.
  - rewrite Hrun in Hret. injection Hret as <-.
    split; [done|]. split; [done|]. split; [done|].
    intros domain id. rewrite Hent. split; [|by right].
    intros [Hempty|?]; [|done]. by apply (has_entry_empty unwrap_map_any) in Hempty.
Qed.

Lemma DeviceMatches_capacity_returns driver entries (result : gmap string any) :
  DeviceMatches_capacity driver entries ∅ = Returns result ->
  two_level any_map_Quantity result
  /\ forall domain id,
       has_entry unwrap_map_Quantity result domain id
       <-> exists name cap, (name, cap) ∈ entries
             /\ parseQualifiedName name driver = Returns (domain, id).
Proof.
  intros Hrun.
  destruct (DeviceMatches_capacity_spec driver entries ∅)
    as (result' & Hret & Hwf & Hent); [apply two_level_empty|].
  rewrite Hrun in Hret. injection Hret as <-. split; [done|].
  intros domain id. rewrite Hent. split; [|by right].
  intros [Hempty|?]; [|done]. by apply (has_entry_empty unwrap_map_Quantity) in Hempty.
Qed.



Lemma getAttributeValue_resolved attr :
  (getAttributeValue attr).2 = None ->
  getAttributeValue attr = ((getAttributeValue attr).1, None).
Proof. destruct (getAttributeValue attr) as [value err]. cbn. by intros ->. Qed.

(** X12. When two names of a device parse to the same (domain, identifier)
    pair, the attributes map holds the value of the one visited last: the
    value stored under a pair is that of the last entry of the run that
    parses to it. *)
Theorem DeviceMatches_attributes_last_wins driver pre name attr post
    (result : gmap string any) domain id :
  DeviceMatches_attributes driver (pre ++ (name, attr) :: post) ∅ = Returns (inr result) ->
  parseQualifiedName name driver = Returns (domain, id) ->
  (forall name' attr', (name', attr') ∈ post ->
     parseQualifiedName name' driver <> Returns (domain, id)) ->
  exists inner,
    result !! domain = Some (any_map_any inner)
    /\ inner !! id = Some (getAttributeValue attr).1.
Proof.
  intros Hrun Hp Hpost.
  destruct (DeviceMatches_attributes_inr _ _ _ Hrun) as (Hall & Hwf & _).
  apply (two_level_lookup _ _ unwrap_map_any_wrap); [done|].
  apply (DeviceMatches_attributes_last driver pre name attr post ∅ result _ _ _
           (two_level_empty _) Hrun); [|done..].
  apply getAttributeValue_resolved, (Hall name), elem_of_app. right.
  apply elem_of_cons. by left.
Qed.

(** X13. The same for the capacity map: the quantity stored under a pair is
    that of the last entry of the run that parses to it. *)
Theorem DeviceMatches_capacity_last_wins driver pre name cap post
    (result : gmap string any) domain id :
  DeviceMatches_capacity driver (pre ++ (name, cap) :: post) ∅ = Returns result ->
  parseQualifiedName name driver = Returns (domain, id) ->
  (forall name' cap', (name', cap') ∈ post ->
     parseQualifiedName name' driver <> Returns (domain, id)) ->
  exists inner,
    result !! domain = Some (any_map_Quantity inner)
    /\ inner !! id = Some {| Quantity := Value cap |}.
Proof.
  intros Hrun Hp Hpost.
  destruct (DeviceMatches_capacity_returns _ _ _ Hrun) as (Hwf & _).
  apply (two_level_lookup _ _ unwrap_map_Quantity_wrap); [done|].
  by apply (DeviceMatches_capacity_last driver pre name cap post ∅ result _ _
              (two_level_empty _) Hrun).
Qed.






Lemma DeviceMatches_attributes_all_resolve driver entries :
  (forall name attr, (name, attr) ∈ entries -> (getAttributeValue attr).2 = None) ->
  exists result, DeviceMatches_attributes driver entries ∅ = Returns (inr result).
Proof.
  intros Hall.
  destruct (DeviceMatches_attributes_spec driver entries ∅)
    as [(name & attr & value & err & Hin & Hv & _)|(result & Hret & _)].
  - apply two_level_empty.
  - apply scalar_leaves_empty.
  - apply Hall in Hin. by rewrite Hv in Hin.
  - by exists result.
Qed.

(** X15. When two different names of a device parse to the same pair and
    their attributes resolve to different values, the order of the range
    shows in the result: there are two orders in which Go may visit the
    attributes that build different maps. *)
Theorem DeviceMatches_attributes_order_matters driver
    (m : gmap string DeviceAttribute) n1 n2 a1 a2 :
  m !! n1 = Some a1 -> m !! n2 = Some a2 -> n1 <> n2 ->
  parseQualifiedName n1 driver = parseQualifiedName n2 driver ->
  (forall name attr, m !! name = Some attr -> (getAttributeValue attr).2 = None) ->
  (getAttributeValue a1).1 <> (getAttributeValue a2).1 ->
  exists order order' (result result' : gmap string any),
    ranges order m /\ ranges order' m
    /\ DeviceMatches_attributes driver order ∅ = Returns (inr result)
    /\ DeviceMatches_attributes driver order' ∅ = Returns (inr result')
    /\ result <> result'.
Proof.
  intros H1 H2 Hne Hp Hall Hdiff.
  set (rest := map_to_list (delete n2 (delete n1 m))).
  assert (Hperm : map_to_list m ≡ₚ (n1, a1) :: (n2, a2) :: rest).
  { rewrite <- (map_to_list_delete m n1 a1 H1). apply perm_skip.
    unfold rest. rewrite <- (map_to_list_delete (delete n1 m) n2 a2); [done|].
    by rewrite lookup_delete_ne. }
  assert (Hr : ranges ((rest ++ [(n1, a1)]) ++ (n2, a2) :: []) m).
  { unfold ranges. rewrite Hperm, <- app_assoc. cbn.
    by rewrite (Permutation_app_comm rest). }
  assert (Hr' : ranges ((rest ++ [(n2, a2)]) ++ (n1, a1) :: []) m).
  { unfold ranges. rewrite Hperm, <- app_assoc. cbn.
    rewrite (Permutation_app_comm rest). cbn. apply perm_swap. }
  destruct (DeviceMatches_attributes_all_resolve driver
              ((rest ++ [(n1, a1)]) ++ (n2, a2) :: [])) as [result Hrun].
  { intros name attr Hin. apply (Hall name). by apply (ranges_elem_of _ _ _ _ Hr). }
  destruct (DeviceMatches_attributes_all_resolve driver
              ((rest ++ [(n2, a2)]) ++ (n1, a1) :: [])) as [result' Hrun'].
  { intros name attr Hin. apply (Hall name). by apply (ranges_elem_of _ _ _ _ Hr'). }
  exists ((rest ++ [(n1, a1)]) ++ (n2, a2) :: [])%list,
    ((rest ++ [(n2, a2)]) ++ (n1, a1) :: [])%list, result, result'.
  split; [done|]. split; [done|].
  split; [done|]. split; [done|]. intros ->.
  destruct (parseQualifiedName_returns n2 driver) as (domain & id & Hp2).
  pose proof Hp as Hp1. rewrite Hp2 in Hp1.
  assert (Hnone : forall name (attr : DeviceAttribute), (name, attr) ∈ [] ->
            parseQualifiedName name driver <> Returns (domain, id))
    by (intros name attr Hin; by apply elem_of_nil in Hin).
  pose proof (DeviceMatches_attributes_last driver _ n2 a2 [] ∅ result' _ domain id
                (two_level_empty _) Hrun
                (getAttributeValue_resolved _ (Hall _ _ H2)) Hp2 Hnone) as Hv2.
  pose proof (DeviceMatches_attributes_last driver _ n1 a1 [] ∅ result' _ domain id
                (two_level_empty _) Hrun'
                (getAttributeValue_resolved _ (Hall _ _ H1)) Hp1 Hnone) as Hv1.
  rewrite Hv2 in Hv1. injection Hv1 as Hv. by destruct Hdiff.
Qed.

Lemma DeviceMatches_convert_returns evaluated :
  exists ret, DeviceMatches_convert evaluated = Returns ret.
Proof.
  unfold DeviceMatches_convert. destruct evaluated as [[result|err] details]; [|by eexists].
  destruct (Val_ConvertToNative result boolType) as [[]|err]; by eexists.
Qed.

Lemma DeviceMatches_returns_with c ctx (input : Device) attributesOrder capacityOrder :
  is_Some (Environment c) -> is_Some (Program c) ->
  exists ret, DeviceMatches c ctx input attributesOrder capacityOrder = Returns ret.
Proof.
  intros [env He] [prog Hp].
  destruct (DeviceMatches_attributes_spec (Driver input) attributesOrder ∅)
    as [(name & attr & value & err & _ & _ & Hret)|(attributes & Hret & _)].
  - apply two_level_empty.
  - apply scalar_leaves_empty.
  - unfold DeviceMatches. rewrite Hret. by eexists.
  - destruct (DeviceMatches_capacity_spec (Driver input) capacityOrder ∅)
      as (capacity & Hcap & _); [apply two_level_empty|].
    rewrite (DeviceMatches_run _ _ _ _ _ _ _ _ _ Hret Hcap He Hp).
    apply DeviceMatches_convert_returns.
Qed.

(** X16. On a result of [CompileCELExpression] that holds a program,
    [DeviceMatches] returns for every device and every order of the ranges:
    no type assertion fails, no slice is out of range and no nil pointer is
    followed. *)
Theorem DeviceMatches_of_compiled_returns
    (cmp : compiler) (expression : string) (options : Options)
    (ctx : context_Context) (input : Device) attributesOrder capacityOrder :
  is_Some (Program (CompileCELExpression cmp expression options)) ->
  exists ret,
    DeviceMatches (CompileCELExpression cmp expression options) ctx input
      attributesOrder capacityOrder = Returns ret.
Proof.
  intros Hprog. apply DeviceMatches_returns_with; [|done].
  destruct (CompileCELExpression_cases cmp expression options)
    as [(detail & kind & Hr & _)
       |(env & ast & prog & _ & [(err & _ & Hr)|(costEst & _ & Hr)])];
    rewrite Hr in Hprog |- *; cbn in *; [by destruct Hprog | by eexists ..].
Qed.

(** X17. On a result without a program, as every failed compilation but a
    failed cost estimation leaves, [DeviceMatches] panics with a nil
    dereference as soon as the device normalizes; only a device with an
    attribute that does not resolve gets its error back. *)
Theorem DeviceMatches_without_program
    (c : CompilationResult) (ctx : context_Context) (input : Device)
    attributesOrder capacityOrder :
  Program c = None ->
  ranges attributesOrder (Attributes input) ->
  (forall name attr, Attributes input !! name = Some attr ->
                     (getAttributeValue attr).2 = None) ->
  DeviceMatches c ctx input attributesOrder capacityOrder
  = Panics "invalid memory address or nil pointer dereference".
Proof.
  intros Hp Ha Hall.
  destruct (DeviceMatches_normalizes input attributesOrder capacityOrder Ha Hall)
    as (attributes & capacity & Hra & Hrc).
  unfold DeviceMatches. rewrite Hra; cbn [mbind outcome_bind].
  rewrite Hrc; cbn [mbind outcome_bind]. rewrite Hp.
  by destruct (Environment c).
Qed.

(** X18. Every error [DeviceMatches] returns is one of four. An attribute
    that does not resolve: the error wraps the error of the resolution
    behind the name, and there are no evaluation details. An error of the
    program: it is returned as it is, not wrapped, with the details of the
    program. A failed conversion: the error wraps the conversion error
    behind the type of the result. A native value that is no boolean: a
    new error, wrapping nothing. *)
Theorem DeviceMatches_errors
    (c : CompilationResult) (ctx : context_Context) (input : Device)
    attributesOrder capacityOrder matched details err :
  DeviceMatches c ctx input attributesOrder capacityOrder
    = Returns (matched, details, Some err) ->
  (exists name attr e,
      (name, attr) ∈ attributesOrder
      /\ (getAttributeValue attr).2 = Some e
      /\ err = fmt_Errorf_w ("attribute " +:+ name +:+ ": " +:+ Error_string e) e
      /\ details = None)
  \/ (exists env prog attributes capacity evaluated,
      DeviceMatches_attributes (Driver input) attributesOrder ∅ = Returns (inr attributes)
      /\ DeviceMatches_capacity (Driver input) capacityOrder ∅ = Returns capacity
      /\ Environment c = Some env /\ Program c = Some prog
      /\ Program_ContextEval prog ctx
           (DeviceMatches_variables c env input attributes capacity)
         = (evaluated, details)
      /\ (evaluated = Err err
          \/ (exists result e,
                evaluated = Ok result
                /\ Val_ConvertToNative result boolType = Err e
                /\ err = fmt_Errorf_w
                           ("CEL result of type " +:+ Val_TypeName result
                            +:+ " could not be converted to bool: " +:+ Error_string e)
                           e)
          \/ (exists result native,
                evaluated = Ok result
                /\ Val_ConvertToNative result boolType = Ok native
                /\ (forall b, native <> any_bool b)
                /\ Unwrap err = None
                /\ err = errors_New
                           ("CEL native result value should have been a bool, got instead: "
                            +:+ fmt_T native)))).
Proof.
  destruct (DeviceMatches_attributes_spec (Driver input) attributesOrder ∅)
    as [(name & attr & value & e & Hin & Hv & Hret)|(attributes & Hret & _)].
  - apply two_level_empty.
  - apply scalar_leaves_empty.
  - unfold DeviceMatches. rewrite Hret. cbn [mbind outcome_bind].
    intros [= ? ? ?]; subst. left. exists name, attr, e. by rewrite Hv.
  - destruct (DeviceMatches_capacity_spec (Driver input) capacityOrder ∅)
      as (capacity & Hcap & _); [apply two_level_empty|].
    destruct (Environment c) as [env|] eqn:He.
    2: { unfold DeviceMatches. rewrite Hret; cbn [mbind outcome_bind].
         rewrite Hcap; cbn [mbind outcome_bind]. by rewrite He. }
    destruct (Program c) as [prog|] eqn:Hp.
    2: { unfold DeviceMatches. rewrite Hret; cbn [mbind outcome_bind].
         rewrite Hcap; cbn [mbind outcome_bind]. by rewrite He, Hp. }
    rewrite (DeviceMatches_run _ _ _ _ _ _ _ _ _ Hret Hcap He Hp).
    destruct (Program_ContextEval _ _ _) as [evaluated details'] eqn:Hrun.
    intros Hconv. right. exists env, prog, attributes, capacity, evaluated.
    unfold DeviceMatches_convert in Hconv.
    destruct evaluated as [result|e].
    + destruct (Val_ConvertToNative result boolType) as [native|e] eqn:Hnative.
      * destruct native; injection Hconv as ? ? ?; subst;
          (split; [done|]); (split; [done|]); (split; [done|]); (split; [done|]);
          (split; [done|]); right; right; eexists _, _;
          (split; [done|]); (split; [done|]); by repeat split.
      * injection Hconv as ? ? ?; subst.
        split; [done|]. split; [done|]. split; [done|]. split; [done|].
        split; [done|]. right; left. by exists result, e.
    + injection Hconv as ? ? ?; subst.
      split; [done|]. split; [done|]. split; [done|]. split; [done|].
      split; [done|]. by left.
Qed.

(** X19. [DeviceMatches] returns a decision without an error exactly when
    both loops end, the environment and the program are there, the program
    returns a value and the value converts to a boolean; the decision is
    that boolean and the details are those of the program. *)
Theorem DeviceMatches_success
    (c : CompilationResult) (ctx : context_Context) (input : Device)
    attributesOrder capacityOrder matched details :
  DeviceMatches c ctx input attributesOrder capacityOrder
    = Returns (matched, details, None)
  <-> exists env prog attributes capacity result,
        DeviceMatches_attributes (Driver input) attributesOrder ∅
          = Returns (inr attributes)
        /\ DeviceMatches_capacity (Driver input) capacityOrder ∅ = Returns capacity
        /\ Environment c = Some env /\ Program c = Some prog
        /\ Program_ContextEval prog ctx
             (DeviceMatches_variables c env input attributes capacity)
           = (Ok result, details)
        /\ Val_ConvertToNative result boolType = Ok (any_bool matched).
Proof.
  split.
  - destruct (DeviceMatches_attributes_spec (Driver input) attributesOrder ∅)
      as [(name & attr & value & e & Hin & Hv & Hret)|(attributes & Hret & _)].
    + apply two_level_empty.
    + apply scalar_leaves_empty.
    + unfold DeviceMatches. rewrite Hret. cbn [mbind outcome_bind]. congruence.
    + destruct (DeviceMatches_capacity_spec (Driver input) capacityOrder ∅)
        as (capacity & Hcap & _); [apply two_level_empty|].
      destruct (Environment c) as [env|] eqn:He.
      2: { unfold DeviceMatches. rewrite Hret; cbn [mbind outcome_bind].
           rewrite Hcap; cbn [mbind outcome_bind]. by rewrite He. }
      destruct (Program c) as [prog|] eqn:Hp.
      2: { unfold DeviceMatches. rewrite Hret; cbn [mbind outcome_bind].
           rewrite Hcap; cbn [mbind outcome_bind]. by rewrite He, Hp. }
      rewrite (DeviceMatches_run _ _ _ _ _ _ _ _ _ Hret Hcap He Hp).
      destruct (Program_ContextEval _ _ _) as [[result|e] details'] eqn:Hrun;
        unfold DeviceMatches_convert; [|congruence].
      destruct (Val_ConvertToNative result boolType) as [native|e] eqn:Hnative;
        [|congruence].
      destruct native; try congruence. intros [= <- <-].
      by exists env, prog, attributes, capacity, result.
  - intros (env & prog & attributes & capacity & result & Ha & Hc & He & Hp & Hrun & Hb).
    rewrite (DeviceMatches_run _ _ _ _ _ _ _ _ _ Ha Hc He Hp), Hrun.
    unfold DeviceMatches_convert. by rewrite Hb.
Qed.

(** X20. [DeviceMatches] reads the program, the environment and the empty
    map value of the result and nothing else: not the error, the cost, the
    output type or the expression. A result that carries the error of a
    failed cost estimation is evaluated like one without it. *)
Theorem DeviceMatches_reads
    (c c' : CompilationResult) (ctx : context_Context) (input : Device)
    attributesOrder capacityOrder :
  Program c = Program c' -> Environment c = Environment c' ->
  emptyMapVal c = emptyMapVal c' ->
  DeviceMatches c ctx input attributesOrder capacityOrder
  = DeviceMatches c' ctx input attributesOrder capacityOrder.
Proof.
  intros Hp He Hm. unfold DeviceMatches, DeviceMatches_variables.
  by rewrite Hp, He, Hm.
Qed.

Lemma compiles_result cmp expression options env ast prog :
  compiles cmp expression options env ast prog ->
  Program (CompileCELExpression cmp expression options) = Some prog
  /\ Environment (CompileCELExpression cmp expression options) = Some env
  /\ emptyMapVal (CompileCELExpression cmp expression options)
     = Some (Adapter_NativeToValue (Env_CELTypeAdapter env) (any_map_any ∅)).
Proof.
  intros Hc.
  destruct (CompileCELExpression_cases cmp expression options)
    as [(detail & kind & _ & Hno)
       |(env' & ast' & prog' & Hc' & [(err & _ & ->)|(costEst & _ & ->)])].
  - by destruct (Hno env ast prog).
  - by destruct (compiles_functional _ _ _ _ _ _ _ _ _ Hc Hc') as (-> & -> & ->).
  - by destruct (compiles_functional _ _ _ _ _ _ _ _ _ Hc Hc') as (-> & -> & ->).
Qed.

(** X21. What the program sees when it looks up a domain, on a result of
    [CompileCELExpression] that holds a program. In the attributes, every
    string key finds the adapted map of the identifiers inserted under that
    domain, which is the adapted empty map when there are none: a domain
    without attributes and a domain that is absent look the same. In the
    capacity, a domain that is present finds its adapted map of quantities
    and an absent one the same adapted empty map as for the attributes. *)
Theorem DeviceMatches_domain_lookup
    (cmp : compiler) (expression : string) (options : Options) env ast prog
    (input : Device) attributesOrder capacityOrder
    (attributes capacity : gmap string any) (key : ref_Val) (domain : string) :
  compiles cmp expression options env ast prog ->
  DeviceMatches_attributes (Driver input) attributesOrder ∅ = Returns (inr attributes) ->
  DeviceMatches_capacity (Driver input) capacityOrder ∅ = Returns capacity ->
  Val_String key = Some domain ->
  let c := CompileCELExpression cmp expression options in
  let adapter := Env_CELTypeAdapter env in
  Find (newStringInterfaceMapWithDefault adapter attributes (emptyMapVal c)) key
    = (Some (Adapter_NativeToValue adapter
               (any_map_any (inner_of unwrap_map_any attributes domain))), true)
  /\ Find (newStringInterfaceMapWithDefault adapter capacity (emptyMapVal c)) key
    = (Some (Adapter_NativeToValue adapter
               match capacity !! domain with
               | Some _ => any_map_Quantity (inner_of unwrap_map_Quantity capacity domain)
               | None => any_map_any ∅
               end), true).
Proof.
  intros Hc Ha Hcap Hk. cbv zeta.
  destruct (compiles_result _ _ _ _ _ _ Hc) as (_ & _ & ->).
  destruct (DeviceMatches_attributes_inr _ _ _ Ha) as (_ & Hwf & _).
  destruct (DeviceMatches_capacity_returns _ _ _ Hcap) as (Hwfc & _).
  rewrite !(Find_string_key _ _ _ _ _ Hk). split.
  - destruct (attributes !! domain) as [v|] eqn:Hd.
    + destruct (Hwf _ _ Hd) as (inner & -> & _).
      by rewrite (inner_of_wrapped _ _ unwrap_map_any_wrap _ _ _ Hd).
    + by rewrite (inner_of_absent _ _ _ Hd).
  - destruct (capacity !! domain) as [v|] eqn:Hd; [|done].
    destruct (Hwfc _ _ Hd) as (inner & -> & _).
    by rewrite (inner_of_wrapped _ _ unwrap_map_Quantity_wrap _ _ _ Hd).
Qed.

End DeviceMatchesMore.

(** ** Runs on the sample runtime, continued *)

Section SampleRunsMore.
#[local] Existing Instances Sample.types Sample.runtime.

(** The two names of [colliding_device], the bare one visited last. *)
Lemma DeviceMatches_attributes_last_wins_witness :
  exists (result inner : gmap string any),
    DeviceMatches_attributes "gpu.example.com"
      ([("gpu.example.com/model",
         {| IntValue := None; BoolValue := None;
            StringValue := Some "H100"; VersionValue := None |})]
       ++ ("model", {| IntValue := None; BoolValue := None;
                       StringValue := Some "A100"; VersionValue := None |}) :: [])
      ∅ = Returns (inr result)
    /\ result !! "gpu.example.com" = Some (any_map_any inner)
    /\ inner !! "model" = Some (any_string "A100").
Proof.
  destruct (DeviceMatches_attributes_all_resolve (RT := Sample.runtime) "gpu.example.com"
              ([("gpu.example.com/model",
                 {| IntValue := None; BoolValue := None;
                    StringValue := Some "H100"; VersionValue := None |})]
               ++ ("model", {| IntValue := None; BoolValue := None;
                               StringValue := Some "A100"; VersionValue := None |}) :: []))
    as [result Hrun].
  - intros name attr Hin.
    rewrite elem_of_app, !elem_of_cons, !elem_of_nil in Hin.
    destruct Hin as [[[= -> ->]|[]]|[[= -> ->]|[]]]; reflexivity.
  - destruct (DeviceMatches_attributes_last_wins (RT := Sample.runtime) _ _ _ _ _ _
                "gpu.example.com" "model" Hrun eq_refl) as (inner & Hd & Hi).
    + intros name attr Hin. by apply elem_of_nil in Hin.
    + by exists result, inner.
Defined.

Lemma DeviceMatches_capacity_last_wins_witness :
  exists (result : gmap string any) inner,
    DeviceMatches_capacity "gpu.example.com"
      ([("gpu.example.com/memory", {| Value := 8 |})]
       ++ ("memory", {| Value := 16 |}) :: []) ∅ = Returns result
    /\ result !! "gpu.example.com" = Some (any_map_Quantity inner)
    /\ inner !! "memory" = Some {| Quantity := 16 |}.
Proof.
  match goal with
  | |- context [DeviceMatches_capacity ?driver ?entries ∅] =>
      destruct (DeviceMatches_capacity_spec driver entries ∅)
        as (result & Hrun & _); [apply two_level_empty|]
  end.
  destruct (DeviceMatches_capacity_last_wins _ _ _ _ _ _
              "gpu.example.com" "memory" Hrun eq_refl) as (inner & Hd & Hi).
  - intros name cap Hin. by apply elem_of_nil in Hin.
  - by exists result, inner.
Defined.



Lemma gpu_device_resolves name attr :
  Attributes Sample.gpu_device !! name = Some attr -> (getAttributeValue attr).2 = None.
Proof.
  unfold Sample.gpu_device. cbn [Attributes].
  by intros [_ <-]%lookup_singleton_Some.
Qed.


Lemma DeviceMatches_attributes_order_matters_witness :
  exists order order' (result result' : gmap string any),
    ranges order (Attributes SampleEnv.colliding_device)
    /\ ranges order' (Attributes SampleEnv.colliding_device)
    /\ DeviceMatches_attributes "gpu.example.com" order ∅ = Returns (inr result)
    /\ DeviceMatches_attributes "gpu.example.com" order' ∅ = Returns (inr result')
    /\ result <> result'.
Proof.
  apply (DeviceMatches_attributes_order_matters (RT := Sample.runtime) "gpu.example.com"
           (Attributes SampleEnv.colliding_device)
           "model" "gpu.example.com/model"
           {| IntValue := None; BoolValue := None;
              StringValue := Some "A100"; VersionValue := None |}
           {| IntValue := None; BoolValue := None;
              StringValue := Some "H100"; VersionValue := None |}).
  - apply lookup_insert_eq.
  - unfold SampleEnv.colliding_device. cbn [Attributes].
    rewrite lookup_insert_ne by discriminate. apply lookup_singleton_eq.
  - discriminate.
  - reflexivity.
  - unfold SampleEnv.colliding_device. cbn [Attributes].
    intros name attr [[_ <-]|[_ [_ <-]%lookup_singleton_Some]]%lookup_insert_Some;
      reflexivity.
  - cbn. discriminate.
Defined.

Lemma DeviceMatches_of_compiled_returns_witness :
  exists ret,
    DeviceMatches (CompileCELExpression Sample.sample_compiler "true" Sample.sample_options)
      tt Sample.gpu_device
      (map_to_list (Attributes Sample.gpu_device))
      (map_to_list (Capacity Sample.gpu_device)) = Returns ret.
Proof.
  apply (DeviceMatches_of_compiled_returns (RT := Sample.runtime)).
  vm_compute. by eexists.
Defined.

Lemma DeviceMatches_without_program_witness :
  DeviceMatches
    (CompileCELExpression Sample.sample_compiler "device.model" Sample.sample_options)
    tt Sample.gpu_device
    (map_to_list (Attributes Sample.gpu_device))
    (map_to_list (Capacity Sample.gpu_device))
  = Panics "invalid memory address or nil pointer dereference".
Proof.
  apply (DeviceMatches_without_program (RT := Sample.runtime)).
  - vm_compute. reflexivity.
  - unfold ranges. reflexivity.
  - apply gpu_device_resolves.
Defined.

Lemma DeviceMatches_errors_witness :
  (exists name attr e,
      (name, attr) ∈ map_to_list (Attributes Sample.broken_device)
      /\ (getAttributeValue attr).2 = Some e
      /\ fmt_Errorf_w "attribute model: unsupported attribute value"
            (errors_New "unsupported attribute value")
         = fmt_Errorf_w ("attribute " +:+ name +:+ ": " +:+ Error_string e) e
      /\ (None : option cel_EvalDetails) = None)
  \/ (exists env prog attributes capacity evaluated,
      DeviceMatches_attributes (Driver Sample.broken_device)
        (map_to_list (Attributes Sample.broken_device)) ∅ = Returns (inr attributes)
      /\ DeviceMatches_capacity (Driver Sample.broken_device) [] ∅ = Returns capacity
      /\ Environment (CompileCELExpression Sample.sample_compiler "true"
                        Sample.sample_options) = Some env
      /\ Program (CompileCELExpression Sample.sample_compiler "true"
                    Sample.sample_options) = Some prog
      /\ Program_ContextEval prog tt
           (DeviceMatches_variables
              (CompileCELExpression Sample.sample_compiler "true" Sample.sample_options)
              env Sample.broken_device attributes capacity)
         = (evaluated, None)
      /\ (evaluated = Err (fmt_Errorf_w "attribute model: unsupported attribute value"
                             (errors_New "unsupported attribute value"))
          \/ (exists result e,
                evaluated = Ok result
                /\ Val_ConvertToNative result boolType = Err e
                /\ fmt_Errorf_w "attribute model: unsupported attribute value"
                      (errors_New "unsupported attribute value")
                   = fmt_Errorf_w
                       ("CEL result of type " +:+ Val_TypeName result
                        +:+ " could not be converted to bool: " +:+ Error_string e)
                       e)
          \/ (exists result native,
                evaluated = Ok result
                /\ Val_ConvertToNative result boolType = Ok native
                /\ (forall b, native <> any_bool b)
                /\ Unwrap (fmt_Errorf_w "attribute model: unsupported attribute value"
                             (errors_New "unsupported attribute value")) = None
                /\ fmt_Errorf_w "attribute model: unsupported attribute value"
                      (errors_New "unsupported attribute value")
                   = errors_New
                       ("CEL native result value should have been a bool, got instead: "
                        +:+ fmt_T native)))).
Proof.
  apply (DeviceMatches_errors (RT := Sample.runtime)
           (CompileCELExpression Sample.sample_compiler "true" Sample.sample_options)
           tt Sample.broken_device (map_to_list (Attributes Sample.broken_device)) []
           false None).
  vm_compute. reflexivity.
Defined.

Lemma DeviceMatches_success_witness :
  DeviceMatches (CompileCELExpression Sample.sample_compiler "true" Sample.sample_options)
    tt Sample.gpu_device
    (map_to_list (Attributes Sample.gpu_device))
    (map_to_list (Capacity Sample.gpu_device))
  = Returns (true, Some 1%N, None).
Proof.
  destruct (DeviceMatches_normalizes (RT := Sample.runtime) Sample.gpu_device
              (map_to_list (Attributes Sample.gpu_device))
              (map_to_list (Capacity Sample.gpu_device)))
    as (attributes & capacity & Ha & Hc).
  - unfold ranges. reflexivity.
  - apply gpu_device_resolves.
  - apply (proj2 (DeviceMatches_success (RT := Sample.runtime) _ _ _ _ _ _ _)).
    exists tt, "true", attributes, capacity, (Sample.VBool true).
    split; [exact Ha|]. split; [exact Hc|].
    split; [vm_compute; reflexivity|]. split; [vm_compute; reflexivity|].
    split; reflexivity.
Defined.

(** The result of a failed cost estimation is evaluated like the result it
    would have been. *)
Lemma DeviceMatches_reads_witness :
  DeviceMatches
    (CompileCELExpression Sample.sample_compiler "cel.bind(x, true, x)"
       Sample.sample_options)
    tt Sample.gpu_device
    (map_to_list (Attributes Sample.gpu_device))
    (map_to_list (Capacity Sample.gpu_device))
  = DeviceMatches
      (success_result "cel.bind(x, true, x)" tt ("cel.bind(x, true, x)", Sample.TyBool)
         "cel.bind(x, true, x)" {| Min := 1; Max := 1 |})
      tt Sample.gpu_device
      (map_to_list (Attributes Sample.gpu_device))
      (map_to_list (Capacity Sample.gpu_device)).
Proof.
  apply (DeviceMatches_reads (RT := Sample.runtime)); vm_compute; reflexivity.
Defined.

Lemma sample_compiles :
  compiles Sample.sample_compiler "true" Sample.sample_options
    tt ("true", Sample.TyBool) "true".
Proof. repeat split; try reflexivity; [by left | by exists tt]. Qed.

Lemma DeviceMatches_domain_lookup_witness :
  exists attributes capacity : gmap string any,
    DeviceMatches_attributes (Driver Sample.gpu_device)
      (map_to_list (Attributes Sample.gpu_device)) ∅ = Returns (inr attributes)
    /\ DeviceMatches_capacity (Driver Sample.gpu_device)
         (map_to_list (Capacity Sample.gpu_device)) ∅ = Returns capacity
    /\ Find (newStringInterfaceMapWithDefault tt attributes
               (emptyMapVal (CompileCELExpression Sample.sample_compiler "true"
                               Sample.sample_options)))
            (Sample.VString "other.example.com")
       = (Some (Sample.native_to_value
                  (any_map_any (inner_of unwrap_map_any attributes "other.example.com"))),
          true).
Proof.
  destruct (DeviceMatches_normalizes (RT := Sample.runtime) Sample.gpu_device
              (map_to_list (Attributes Sample.gpu_device))
              (map_to_list (Capacity Sample.gpu_device)))
    as (attributes & capacity & Ha & Hc).
  - unfold ranges. reflexivity.
  - apply gpu_device_resolves.
  - exists attributes, capacity. split; [exact Ha|]. split; [exact Hc|].
    exact (proj1 (DeviceMatches_domain_lookup (RT := Sample.runtime)
                    Sample.sample_compiler "true" Sample.sample_options
                    tt ("true", Sample.TyBool) "true" Sample.gpu_device _ _
                    attributes capacity (Sample.VString "other.example.com")
                    "other.example.com" sample_compiles Ha Hc eq_refl)).
Defined.

End SampleRunsMore.

(** ** The environment and the shared compiler *)

Section EnvironmentFacts.
Context {TY : CelTypes} {RT : CelRuntime} {ER : EnvRuntime}.

Lemma mustBuildEnv_fields_snoc (fields : list DeclField) f :
  mustBuildEnv_fields (fields ++ [f]) = <[Name f := f]> (mustBuildEnv_fields fields).
Proof. unfold mustBuildEnv_fields. by rewrite foldl_app. Qed.

Lemma mustBuildEnv_fields_lookup (fields : list DeclField) name f :
  mustBuildEnv_fields fields !! name = Some f -> Name f = name /\ f ∈ fields.
Proof.
  revert name f. induction fields as [|g fields IH] using rev_ind; intros name f.
  - unfold mustBuildEnv_fields. cbn. by rewrite lookup_empty.
  - rewrite mustBuildEnv_fields_snoc. destruct (decide (Name g = name)) as [<-|Hne].
    + rewrite lookup_insert_eq. intros [= <-]. split; [done|].
      apply elem_of_app. right. by apply list_elem_of_singleton.
    + rewrite lookup_insert_ne by done. intros [Hn Hin]%IH. split; [done|].
      apply elem_of_app. by left.
Qed.

(** X22. The local [fields] of [mustBuildEnv] indexes fields by name: what
    is found under a name is a field of the list with that name; every
    name of the list is a key; and when no name is declared twice every
    field is found under its name. *)
Theorem mustBuildEnv_fields_by_name (fields : list DeclField) :
  (forall name f, mustBuildEnv_fields fields !! name = Some f ->
                  Name f = name /\ f ∈ fields)
  /\ (forall f, f ∈ fields -> is_Some (mustBuildEnv_fields fields !! Name f))
  /\ (NoDup (Name <$> fields) ->
      forall f, f ∈ fields -> mustBuildEnv_fields fields !! Name f = Some f).
Proof.
  split; [apply mustBuildEnv_fields_lookup|].
  induction fields as [|g fields (IH2 & IH3)] using rev_ind.
  - split.
    + intros f Hin. by apply elem_of_nil in Hin.
    + intros _ f Hin. by apply elem_of_nil in Hin.
  - rewrite mustBuildEnv_fields_snoc. split.
    + intros f [Hin|Heq%list_elem_of_singleton]%elem_of_app; [|subst f].
      * destruct (decide (Name g = Name f)) as [->|Hne].
        -- rewrite lookup_insert_eq. by eexists.
        -- rewrite lookup_insert_ne by done. by apply IH2.
      * rewrite lookup_insert_eq. by eexists.
    + rewrite fmap_app. intros (Hnd & Hdisj & _)%NoDup_app f
        [Hin|Heq%list_elem_of_singleton]%elem_of_app; [|subst f].
      * rewrite lookup_insert_ne; [by apply IH3|].
        intros Heq. apply (Hdisj (Name f)).
        -- apply list_elem_of_fmap. by exists f.
        -- rewrite <- Heq. cbn. by apply list_elem_of_singleton.
      * apply lookup_insert_eq.
Qed.

(** X23. The variables [DeviceMatches] hands to the program and the type
    [mustBuildEnv] declares agree: the only variable bound is [device], and
    the map bound to it has exactly the fields declared for the device
    type, each of which is declared as required under its own name. *)
Theorem DeviceMatches_variables_declared
    (c : CompilationResult) (env : cel_Env) (input : Device)
    (attributes capacity : gmap string any) :
  let variables := DeviceMatches_variables c env input attributes capacity in
  (forall name, is_Some (variables !! name) <-> name = deviceVar)
  /\ (forall name,
        is_Some (device_binding variables !! name)
        <-> is_Some (DeclType_fields mustBuildEnv_deviceType !! name))
  /\ (forall name f,
        DeclType_fields mustBuildEnv_deviceType !! name = Some f ->
        Name f = name /\ Required f = true)
  /\ device_binding variables !! driverVar = Some (any_string (Driver input)).
Proof.
  cbv zeta. unfold DeviceMatches_variables, device_binding.
  rewrite lookup_singleton_eq. split; [|split; [|split]].
  - intros name. rewrite lookup_singleton_is_Some. split; by intros ->.
  - intros name. unfold mustBuildEnv_deviceType, DeclType_fields, mustBuildEnv_fields.
    cbn [foldl Name mustBuildEnv_field NewDeclField].
    rewrite !lookup_insert_is_Some', !lookup_empty.
    pose proof (@is_Some_None any). pose proof (@is_Some_None (DeclField_of DeclType)).
    tauto.
  - intros name f Hf.
    apply mustBuildEnv_fields_lookup in Hf as [Hn Hin].
    split; [done|].
    rewrite !elem_of_cons, elem_of_nil in Hin.
    by destruct Hin as [->|[->|[->|[]]]].
  - by rewrite lookup_insert_eq.
Qed.

(** X24. [GetCompiler] builds at most once. After any call, whether it
    returned or panicked, the once-flag is set, and every later call
    returns the stored compiler and leaves the package variables as they
    are; a call that returns gives the compiler that is stored. *)
Theorem GetCompiler_once (vars : package_vars) :
  let vars' := (GetCompiler vars).2 in
  lazyCompilerInit vars' = true
  /\ GetCompiler vars' = (Returns (lazyCompiler vars'), vars')
  /\ (forall p, (GetCompiler vars).1 = Returns p -> p = lazyCompiler vars').
Proof.
  cbv zeta. unfold GetCompiler, lazyCompilerInit_Do.
  destruct (lazyCompilerInit vars) eqn:Hdone.
  - cbn. rewrite Hdone. cbn. split; [done|]. split; [done|]. by intros p [= <-].
  - destruct newCompiler as [c|reason]; cbn; (split; [done|]); (split; [done|]).
    + by intros p [= <-].
    + done.
Qed.

(** X25. When extending the base environment fails, the first call of
    [GetCompiler] panics with the error of the extension, and every call
    after it returns a nil compiler without building again. *)
Theorem GetCompiler_failed_build base err :
  environment_MustBaseEnvSet environment_DefaultCompatibilityVersion true = Returns base ->
  EnvSet_Extend base mustBuildEnv_versioned = Err err ->
  let vars' := {| lazyCompilerInit := true; lazyCompiler := None |} in
  GetCompiler package_init
    = (Panics ("internal error building CEL environment: " +:+ Error_string err), vars')
  /\ GetCompiler vars' = (Returns None, vars').
Proof.
  intros Hbase Hext. cbv zeta. split; [|done].
  unfold GetCompiler, lazyCompilerInit_Do, package_init, newCompiler, mustBuildEnv.
  cbn [lazyCompilerInit lazyCompiler]. rewrite Hbase. cbn [mbind outcome_bind].
  by rewrite Hext.
Qed.

(** When the base environment is there and extending it succeeds, the
    first call of [GetCompiler] returns a compiler over the extended
    environment set, and every later call returns that same compiler. *)
Theorem GetCompiler_built base envset :
  environment_MustBaseEnvSet environment_DefaultCompatibilityVersion true = Returns base ->
  EnvSet_Extend base mustBuildEnv_versioned = Ok envset ->
  let c := {| envset := envset |} in
  let vars' := {| lazyCompilerInit := true; lazyCompiler := Some c |} in
  GetCompiler package_init = (Returns (Some c), vars')
  /\ GetCompiler vars' = (Returns (Some c), vars').
Proof.
  intros Hbase Hext. cbv zeta. split; [|done].
  unfold GetCompiler, lazyCompilerInit_Do, package_init, newCompiler, mustBuildEnv.
  cbn [lazyCompilerInit lazyCompiler]. rewrite Hbase. cbn [mbind outcome_bind].
  by rewrite Hext.
Qed.

End EnvironmentFacts.

Section EnvironmentRuns.
#[local] Existing Instances Sample.types Sample.runtime.

Lemma mustBuildEnv_fields_by_name_witness :
  mustBuildEnv_fields
    [mustBuildEnv_field "driver" StringType true;
     mustBuildEnv_field "attributes" AnyType true] !! "attributes"
  = Some (mustBuildEnv_field "attributes" AnyType true).
Proof.
  refine (proj2 (proj2 (mustBuildEnv_fields_by_name
                          [mustBuildEnv_field "driver" StringType true;
                           mustBuildEnv_field "attributes" AnyType true]))
            _ (mustBuildEnv_field "attributes" AnyType true) _).
  - cbn. repeat constructor; rewrite ?elem_of_cons, ?elem_of_nil; intuition discriminate.
  - apply elem_of_cons. right. apply elem_of_cons. by left.
Defined.

Lemma GetCompiler_failed_build_witness :
  GetCompiler (ER := SampleEnv.failing_env_runtime) package_init
  = (Panics "internal error building CEL environment: duplicate declaration",
     {| lazyCompilerInit := true; lazyCompiler := None |})
  /\ GetCompiler (ER := SampleEnv.failing_env_runtime)
       {| lazyCompilerInit := true; lazyCompiler := None |}
     = (Returns None, {| lazyCompilerInit := true; lazyCompiler := None |}).
Proof.
  apply (GetCompiler_failed_build (ER := SampleEnv.failing_env_runtime) tt
           (errors_New "duplicate declaration")); reflexivity.
Defined.

Lemma GetCompiler_built_witness :
  GetCompiler (ER := SampleEnv.env_runtime) package_init
  = (Returns (Some Sample.sample_compiler),
     {| lazyCompilerInit := true; lazyCompiler := Some Sample.sample_compiler |})
  /\ GetCompiler (ER := SampleEnv.env_runtime)
       {| lazyCompilerInit := true; lazyCompiler := Some Sample.sample_compiler |}
     = (Returns (Some Sample.sample_compiler),
        {| lazyCompilerInit := true; lazyCompiler := Some Sample.sample_compiler |}).
Proof.
  apply (GetCompiler_built (ER := SampleEnv.env_runtime) tt tt); reflexivity.
Defined.

End EnvironmentRuns.
